(** * Implicit interfacing demos: a shallow embedding and its properties

    The repository holds three small Go programs ([demos/rng],
    [demos/sleeper], [demos/api-call]).  Each defines a one-method interface
    where it is consumed, a consumer written against that interface, a
    production implementation and a test double.

    Go code that calls through an interface is embedded as a _program_: a
    tree of operations whose answers come from whoever implements the
    interface.  An implementation (production adapter or test double) is a
    _handler_ giving each operation a meaning over the state of the objects
    it owns.  Properties of a consumer that hold "for every capability" are
    statements over every handler. *)

From Stdlib Require Import ZArith List String Ascii Bool Lia DecimalString DecimalZ.
Import ListNotations.
Local Open Scope Z_scope.
Local Open Scope list_scope.

(** ** Programs over an interface *)

Inductive prog (E : Type -> Type) (R : Type) : Type :=
| Ret (r : R)
| Vis (X : Type) (e : E X) (k : X -> prog E R).

Arguments Ret {E R} r.
Arguments Vis {E R X} e k.

Fixpoint bind {E : Type -> Type} {R T : Type} (p : prog E R) (f : R -> prog E T) : prog E T :=
  match p with
  | Ret r => f r
  | Vis e k => Vis e (fun x => bind (k x) f)
  end.

Definition trigger {E : Type -> Type} {X : Type} (e : E X) : prog E X := Vis e Ret.

Declare Scope prog_scope.
Delimit Scope prog_scope with prog.
Notation "x <- c1 ;; c2" := (bind c1 (fun x => c2))
  (at level 61, c1 at next level, right associativity) : prog_scope.
Notation "' pat <- c1 ;; c2" := (bind c1 (fun x => match x with pat => c2 end))
  (at level 61, pat pattern, c1 at next level, right associativity) : prog_scope.
Notation "c1 ;; c2" := (bind c1 (fun _ => c2))
  (at level 61, right associativity) : prog_scope.

(** An implementation of the interface [E] over object state [S]. *)
Definition handler (E : Type -> Type) (S : Type) : Type := forall X : Type, E X -> S -> X * S.

(** One recorded call through the interface. *)
Inductive call (E : Type -> Type) : Type :=
| Call (X : Type) (e : E X).

Arguments Call {E X} e.

(** What a run leaves behind: the value returned, the final state of the
    implementation's objects and the calls made, oldest first. *)
Record run_result (E : Type -> Type) (S R : Type) : Type :=
  { result : R; final : S; calls : list (call E) }.

Arguments result {E S R} _.
Arguments final {E S R} _.
Arguments calls {E S R} _.

Fixpoint exec {E : Type -> Type} {S R : Type} (h : handler E S) (p : prog E R) (s : S) : run_result E S R :=
  match p with
  | Ret r => {| result := r; final := s; calls := [] |}
  | Vis e k =>
      let '(x, s1) := h _ e s in
      let r := exec h (k x) s1 in
      {| result := result r; final := final r; calls := Call e :: calls r |}
  end.

(** A Go call either returns its results or panics. *)
Inductive outcome (A : Type) : Type :=
| Returned (a : A)
| Panicked.

Arguments Returned {A} a.
Arguments Panicked {A}.

(** [defer f()] followed by the rest of the function body: the deferred call
    runs after the body has computed the results, before the caller sees
    them. *)
Definition defer {E : Type -> Type} {X R : Type} (deferred : prog E X) (body : prog E R) : prog E R :=
  (r <- body ;; deferred ;; Ret r)%prog.

(** ** Strings

    A Go [string] and a [[]byte] are sequences of bytes: [string] here. *)

Definition quote : ascii := "034"%char.
Definition backslash : ascii := "092"%char.
Definition newline : string := String "010"%char EmptyString.

Definition len (s : string) : Z := Z.of_nat (String.length s).

(** [s[i]]: the byte at index [i], [None] where Go panics (index out of
    range). *)
Definition index (s : string) (i : Z) : option ascii :=
  if i <? 0 then None else String.get (Z.to_nat i) s.

Definition byte (c : ascii) : Z := Z.of_N (N_of_ascii c).
Definition of_byte (z : Z) : ascii := ascii_of_N (Z.to_N z).

(** [strconv.Itoa] and the [%d] verb on an [int]. *)
Definition itoa (i : Z) : string := NilZero.string_of_int (Z.to_int i).

(** ** Package [errors] and the error values the demos build or receive *)

Module errors.

(** The dynamic types of error that occur: [*errors.errorString] (from
    [errors.New] and from [fmt.Errorf] without [%w]; a capability's own
    error is represented by its text), [*fmt.wrapError] (from [fmt.Errorf]
    with [%w]) and the two errors of [encoding/json]. *)
Inductive error : Type :=
| errorString (s : string)
| wrapError (msg : string) (err : error)
| SyntaxError (msg : string) (Offset : Z)
| UnmarshalTypeError (Value : string) (Type_ : string) (Offset : Z) (Struct : string) (Field : string).

Definition Error (e : error) : string :=
  match e with
  | errorString s => s
  | wrapError msg _ => msg
  | SyntaxError msg _ => msg
  | UnmarshalTypeError v t _ st f =>
      if (negb (String.eqb st EmptyString) || negb (String.eqb f EmptyString))%bool
      then ("json: cannot unmarshal " ++ v ++ " into Go struct field " ++ st ++ "." ++ f ++ " of type " ++ t)%string
      else ("json: cannot unmarshal " ++ v ++ " into Go value of type " ++ t)%string
  end.


(** [io.ErrUnexpectedEOF] *)
Definition ErrUnexpectedEOF : error := errorString "unexpected EOF".

End errors.

Import errors.

(** ** Package [fmt]: the verbs the demos use *)

Module fmt.

Inductive arg : Type :=
| Str (s : string)
| Int (i : Z)
| Err (e : error).

(** One verb applied to one operand.  [None] is a combination the demos
    never form (Go prints a [%!verb(type=value)] diagnostic there). *)
Definition verb (v : ascii) (a : arg) : option string :=
  match a with
  | Str s => if (Ascii.eqb v "s" || Ascii.eqb v "v")%bool then Some s else None
  | Int i => if (Ascii.eqb v "d" || Ascii.eqb v "v")%bool then Some (itoa i) else None
  | Err e => if (Ascii.eqb v "w" || Ascii.eqb v "v" || Ascii.eqb v "s")%bool then Some (Error e) else None
  end.

(** The formatting loop: literal bytes are copied, [%%] prints a percent
    sign, any other [%x] consumes the next operand.  [None] also stands for
    a format with missing or extra operands. *)
Fixpoint format (f : string) (args : list arg) : option string :=
  match f with
  | EmptyString => match args with [] => Some EmptyString | _ :: _ => None end
  | String c rest =>
      if Ascii.eqb c "%" then
        match rest with
        | EmptyString => None
        | String v rest' =>
            if Ascii.eqb v "%" then option_map (String "%"%char) (format rest' args)
            else match args with
                 | [] => None
                 | a :: args' =>
                     match verb v a, format rest' args' with
                     | Some s, Some t => Some (s ++ t)%string
                     | _, _ => None
                     end
                 end
        end
      else option_map (String c) (format rest args)
  end.

Definition Sprintf (f : string) (args : list arg) : string :=
  match format f args with
  | Some s => s
  | None => EmptyString
  end.

(** The operand of the first [%w] verb, when it is an error. *)
Fixpoint wrapped (f : string) (args : list arg) : option error :=
  match f with
  | EmptyString => None
  | String c rest =>
      if Ascii.eqb c "%" then
        match rest with
        | EmptyString => None
        | String v rest' =>
            if Ascii.eqb v "%" then wrapped rest' args
            else match args with
                 | [] => None
                 | a :: args' =>
                     match a with
                     | Err e => if Ascii.eqb v "w" then Some e else wrapped rest' args'
                     | _ => wrapped rest' args'
                     end
                 end
        end
      else wrapped rest args
  end.

(** [fmt.Errorf]: a [*fmt.wrapError] when the format has a [%w] with an
    error operand, else [errors.New] of the text. *)
Definition Errorf (f : string) (args : list arg) : error :=
  match wrapped f args with
  | Some e => wrapError (Sprintf f args) e
  | None => errorString (Sprintf f args)
  end.

End fmt.

(** Values a Go function hands back, one per declared result. *)
Inductive value : Type :=
| VString (s : string)
| VInt (i : Z)
| VBool (b : bool).

(** ** Demo [rng]: names with a generated suffix *)

Module rng.

(** [StringGenerator]: the interface, called on a generator [g]. *)
Inductive StringGenerator (G : Type) : Type -> Type :=
| Generate (g : G) : StringGenerator G string.

Arguments Generate {G} g.

(** [NameGenerator] holds the generator it was built with. *)
Record NameGenerator (G : Type) : Type := { generator : G }.

Arguments generator {G} _.

Definition GenerateName {G : Type} (ng : NameGenerator G) (baseName : string) : prog (StringGenerator G) string :=
  (suffix <- trigger (Generate (generator ng)) ;;
   Ret (fmt.Sprintf "%s-%s" [fmt.Str baseName; fmt.Str suffix]))%prog.

(** [*rand.Rand], through the one method used. *)
Inductive Rand (R : Type) : Type -> Type :=
| Intn (r : R) (n : Z) : Rand R Z.

Arguments Intn {R} r n.

Record RandomStringGenerator (R : Type) : Type := { rng : R }.

Arguments rng {R} _.

Definition charset : string := "abcdefghijklmnopqrstuvwxyz0123456789".
Definition suffixLen : nat := 5.

(** [suffix[i] = c]; [None] where Go panics. *)
Fixpoint store (suffix : list ascii) (i : nat) (c : ascii) : option (list ascii) :=
  match suffix, i with
  | [], _ => None
  | _ :: rest, O => Some (c :: rest)
  | b :: rest, S j => option_map (cons b) (store rest j c)
  end.

(** The body of [for i := range suffix], over the indices still to visit. *)
Fixpoint fill {R : Type} (r : RandomStringGenerator R) (indices : list nat) (suffix : list ascii)
  : prog (Rand R) (outcome (list ascii)) :=
  match indices with
  | [] => Ret (Returned suffix)
  | i :: rest =>
      Vis (Intn (rng r) (len charset))
          (fun n =>
             match index charset n with
             | None => Ret Panicked
             | Some c =>
                 match store suffix i c with
                 | None => Ret Panicked
                 | Some suffix' => fill r rest suffix'
                 end
             end)
  end.

Definition RandomStringGenerator_Generate {R : Type} (r : RandomStringGenerator R) : prog (Rand R) (outcome string) :=
  (o <- fill r (seq 0 suffixLen) (repeat zero suffixLen) ;;
   Ret match o with
       | Returned suffix => Returned (string_of_list_ascii suffix)
       | Panicked => Panicked
       end)%prog.

(** The test double: returns the string it was given. *)
Record mockStringGenerator : Type := { value : string }.

Definition mock : handler (StringGenerator mockStringGenerator) unit :=
  fun X e s => match e in StringGenerator _ T return T * unit with
               | Generate m => (value m, s)
               end.

(** The draws a run of [Generate] asked for, oldest first. *)
Fixpoint draws {R S : Type} (h : handler (Rand R) S) (r : R) (k : nat) (s : S) : list Z :=
  match k with
  | O => []
  | S k' => let '(n, s1) := h _ (Intn r (len charset)) s in n :: draws h r k' s1
  end.

(** A source of draws for examples: a linear congruential sequence. *)
Definition lcg : handler (Rand unit) Z :=
  fun X e s => match e in Rand _ T return T * Z with
               | Intn _ n => (s mod n, (s * 1103515245 + 12345) mod 2147483648)
               end.

End rng.

(** ** Demo [sleeper]: work that waits *)

Module sleeper.

(** [time.Duration]: nanoseconds. *)
Definition Duration : Type := Z.
Definition Second : Duration := 1000000000.

(** What [DoWork] touches: standard output ([fmt.Println]) and the
    [Sleeper] interface, called on a sleeper [s]. *)
Inductive Sleeper (S : Type) : Type -> Type :=
| Println (line : string) : Sleeper S unit
| Sleep (s : S) (d : Duration) : Sleeper S unit.

Arguments Println {S} line.
Arguments Sleep {S} s d.

Record Worker (S : Type) : Type := { sleeper : S }.

Arguments sleeper {S} _.

Definition NewWorker {S : Type} (s : S) : Worker S := {| sleeper := s |}.

(** [DoWork] declares no result: it hands back the empty list of values. *)
Definition DoWork {S : Type} (w : Worker S) : prog (Sleeper S) (list value) :=
  (trigger (Println "Starting work...") ;;
   trigger (Sleep (sleeper w) (2 * Second)) ;;
   trigger (Println "Work complete!") ;;
   Ret [])%prog.

(** The test double records the duration instead of waiting.  Doubles live
    in a store and are reached through their address, as [&mockSleeper{}]
    is. *)
Record mockSleeper : Type := { duration : Duration }.

Record world : Type := { stdout : list string; sleepers : list mockSleeper }.

Fixpoint record_duration (ms : list mockSleeper) (p : nat) (d : Duration) : list mockSleeper :=
  match ms, p with
  | [], _ => []
  | _ :: rest, O => {| duration := d |} :: rest
  | m :: rest, S q => m :: record_duration rest q d
  end.

Definition mock : handler (Sleeper nat) world :=
  fun X e w => match e in Sleeper _ T return T * world with
               | Println line => (tt, {| stdout := stdout w ++ [(line ++ newline)%string]; sleepers := sleepers w |})
               | Sleep p d => (tt, {| stdout := stdout w; sleepers := record_duration (sleepers w) p d |})
               end.

(** The production sleeper really waits: the clock moves on by the duration
    (a negative or zero duration returns at once). *)
Record real_world : Type := { real_stdout : list string; clock : Z }.

Definition realSleeper : handler (Sleeper unit) real_world :=
  fun X e w => match e in Sleeper _ T return T * real_world with
               | Println line => (tt, {| real_stdout := real_stdout w ++ [(line ++ newline)%string]; clock := clock w |})
               | Sleep _ d => (tt, {| real_stdout := real_stdout w; clock := clock w + Z.max d 0 |})
               end.

(** The [Sleep] calls among the calls of a run. *)
Fixpoint sleeps {S : Type} (cs : list (call (Sleeper S))) : list (S * Duration) :=
  match cs with
  | [] => []
  | Call e :: rest =>
      match e with
      | Sleep s d => (s, d) :: sleeps rest
      | Println _ => sleeps rest
      end
  end.

End sleeper.

(** ** Demo [api-call]: fetching a user *)

Module api_call.

(** [type User struct { Name string `json:"name"` }] *)
Record User : Type := { Name : string }.

(** [User{}] *)
Definition zero : User := {| Name := EmptyString |}.

(** *** Package [encoding/json], decoding into a [User]

    [json.Unmarshal] is not part of the repository.  What follows is its
    behaviour on a [*User] target: the byte-at-a-time scanner that validates
    the input, and the decoder that walks the value and fills the one field.
    The decoder of the library walks the input with the same scanner and
    skips what it does not store; here the walk first builds the value as a
    tree and [decode] then reads it. *)

Module json.

Definition isc (c k : ascii) : bool := Ascii.eqb c k.
Definition between (lo c hi : ascii) : bool := (byte lo <=? byte c) && (byte c <=? byte hi).

Definition hexdigit (n : Z) : ascii :=
  match index "0123456789abcdef" n with
  | Some c => c
  | None => "0"%char
  end.

(** [utf8.EncodeRune] *)
Definition EncodeRune (r : Z) : list ascii :=
  if (0 <=? r) && (r <=? 127) then [of_byte r]
  else if (0 <=? r) && (r <=? 2047) then
    [of_byte (Z.lor 192 (Z.shiftr r 6)); of_byte (Z.lor 128 (Z.land r 63))]
  else if (r <? 0) || (1114111 <? r) || ((55296 <=? r) && (r <=? 57343)) then
    [of_byte 239; of_byte 191; of_byte 189]
  else if r <=? 65535 then
    [of_byte (Z.lor 224 (Z.shiftr r 12)); of_byte (Z.lor 128 (Z.land (Z.shiftr r 6) 63));
     of_byte (Z.lor 128 (Z.land r 63))]
  else
    [of_byte (Z.lor 240 (Z.shiftr r 18)); of_byte (Z.lor 128 (Z.land (Z.shiftr r 12) 63));
     of_byte (Z.lor 128 (Z.land (Z.shiftr r 6) 63)); of_byte (Z.lor 128 (Z.land r 63))].

Definition RuneError : Z := 65533.

(** The [first] table of package [utf8] for a leading byte of a multi-byte
    sequence: its size and the range accepted for the second byte. *)
Definition first (p0 : Z) : option (nat * Z * Z) :=
  if (194 <=? p0) && (p0 <=? 223) then Some (2%nat, 128, 191)
  else if p0 =? 224 then Some (3%nat, 160, 191)
  else if (225 <=? p0) && (p0 <=? 236) then Some (3%nat, 128, 191)
  else if p0 =? 237 then Some (3%nat, 128, 159)
  else if (238 <=? p0) && (p0 <=? 239) then Some (3%nat, 128, 191)
  else if p0 =? 240 then Some (4%nat, 144, 191)
  else if (241 <=? p0) && (p0 <=? 243) then Some (4%nat, 128, 191)
  else if p0 =? 244 then Some (4%nat, 128, 143)
  else None.

Definition continuation (b : Z) : bool := (128 <=? b) && (b <=? 191).

(** [utf8.DecodeRune] on a non-empty input: the rune and its width;
    [(RuneError, 1)] for a byte that starts no well-formed sequence. *)
Definition DecodeRune (p0 : ascii) (rest : list ascii) : Z * nat :=
  let c := byte p0 in
  if c <? 128 then (c, 1%nat)
  else match first c with
       | None => (RuneError, 1%nat)
       | Some (sz, lo, hi) =>
           match rest with
           | [] => (RuneError, 1%nat)
           | b1 :: rest1 =>
               if negb ((lo <=? byte b1) && (byte b1 <=? hi)) then (RuneError, 1%nat)
               else if (sz <=? 2)%nat then
                 (Z.lor (Z.shiftl (Z.land c 31) 6) (Z.land (byte b1) 63), 2%nat)
               else match rest1 with
                    | [] => (RuneError, 1%nat)
                    | b2 :: rest2 =>
                        if negb (continuation (byte b2)) then (RuneError, 1%nat)
                        else if (sz <=? 3)%nat then
                          (Z.lor (Z.shiftl (Z.land c 15) 12)
                             (Z.lor (Z.shiftl (Z.land (byte b1) 63) 6) (Z.land (byte b2) 63)), 3%nat)
                        else match rest2 with
                             | [] => (RuneError, 1%nat)
                             | b3 :: _ =>
                                 if negb (continuation (byte b3)) then (RuneError, 1%nat)
                                 else
                                   (Z.lor (Z.shiftl (Z.land c 7) 18)
                                      (Z.lor (Z.shiftl (Z.land (byte b1) 63) 12)
                                         (Z.lor (Z.shiftl (Z.land (byte b2) 63) 6) (Z.land (byte b3) 63))),
                                    4%nat)
                             end
                    end
           end
       end.

(** [string(c)] for a byte [c]: the UTF-8 encoding of the code point. *)
Definition string_of_byte (c : ascii) : string := string_of_list_ascii (EncodeRune (byte c)).

(** [strconv.IsPrint] below U+0100. *)
Definition IsPrint (r : Z) : bool :=
  ((32 <=? r) && (r <=? 126)) || ((161 <=? r) && (r <=? 255) && negb (r =? 173)).

(** [quoteChar]: a byte as it appears in a syntax error. *)
Definition quoteChar (c : ascii) : string :=
  let r := byte c in
  let q := String "'"%char EmptyString in
  if isc c "'" then (q ++ String backslash q ++ q)%string
  else if isc c quote then (q ++ String quote q)%string
  else
    let inner :=
      if isc c backslash then String backslash (String backslash EmptyString)
      else if IsPrint r then string_of_byte c
      else if r =? 7 then String backslash "a"
      else if r =? 8 then String backslash "b"
      else if r =? 12 then String backslash "f"
      else if r =? 10 then String backslash "n"
      else if r =? 13 then String backslash "r"
      else if r =? 9 then String backslash "t"
      else if r =? 11 then String backslash "v"
      else if (r <? 32) || (r =? 127) then
        String backslash (String "x" (String (hexdigit (Z.shiftr r 4)) (String (hexdigit (Z.land r 15)) EmptyString)))
      else
        String backslash
          (String "u" (String (hexdigit (Z.land (Z.shiftr r 12) 15)) (String (hexdigit (Z.land (Z.shiftr r 8) 15))
             (String (hexdigit (Z.land (Z.shiftr r 4) 15)) (String (hexdigit (Z.land r 15)) EmptyString)))))
    in (q ++ inner ++ q)%string.

(** *** The scanner *)

Inductive opcode : Type :=
| scanContinue | scanBeginLiteral | scanBeginObject | scanObjectKey | scanObjectValue | scanEndObject
| scanBeginArray | scanArrayValue | scanEndArray | scanSkipSpace | scanEnd | scanError.

Inductive parse_state : Type := parseObjectKey | parseObjectValue | parseArrayValue.

Inductive stepfn : Type :=
| stateBeginValue | stateBeginValueOrEmpty | stateBeginStringOrEmpty | stateBeginString
| stateEndValue | stateEndTop
| stateInString | stateInStringEsc | stateInStringEscU | stateInStringEscU1 | stateInStringEscU12
| stateInStringEscU123
| stateNeg | state1 | state0 | stateDot | stateDot0 | stateE | stateESign | stateE0
| stateT | stateTr | stateTru | stateF | stateFa | stateFal | stateFals | stateN | stateNu | stateNul
| stateError.

(** [parseState] is kept innermost first. *)
Record scanner : Type :=
  { step : stepfn; endTop : bool; parseState : list parse_state; err : option error; bytes : Z }.

Definition maxNestingDepth : Z := 10000.

Definition set_step (s : scanner) (f : stepfn) : scanner :=
  {| step := f; endTop := endTop s; parseState := parseState s; err := err s; bytes := bytes s |}.

Definition set_parseState (s : scanner) (ps : list parse_state) : scanner :=
  {| step := step s; endTop := endTop s; parseState := ps; err := err s; bytes := bytes s |}.

Definition set_endTop (s : scanner) : scanner :=
  {| step := step s; endTop := true; parseState := parseState s; err := err s; bytes := bytes s |}.

Definition reset : scanner :=
  {| step := stateBeginValue; endTop := false; parseState := []; err := None; bytes := 0 |}.

Definition error_ (s : scanner) (c : ascii) (context : string) : scanner * opcode :=
  ({| step := stateError; endTop := endTop s; parseState := parseState s;
      err := Some (SyntaxError ("invalid character " ++ quoteChar c ++ " " ++ context)%string (bytes s));
      bytes := bytes s |}, scanError).

Definition pushParseState (s : scanner) (c : ascii) (newParseState : parse_state) (successState : opcode)
  : scanner * opcode :=
  let s1 := set_parseState s (newParseState :: parseState s) in
  if Z.of_nat (List.length (parseState s1)) <=? maxNestingDepth then (s1, successState)
  else error_ s1 c "exceeded max depth".

Definition popParseState (s : scanner) : scanner :=
  let s1 := set_parseState s (tl (parseState s)) in
  match parseState s1 with
  | [] => set_endTop (set_step s1 stateEndTop)
  | _ :: _ => set_step s1 stateEndValue
  end.

Definition isSpace (c : ascii) : bool :=
  isc c " " || isc c "009" || isc c "013" || isc c "010".

Definition isDigit (c : ascii) : bool := between "0" c "9".
Definition isHex (c : ascii) : bool := isDigit c || between "a" c "f" || between "A" c "F".

Definition do_stateEndTop (s : scanner) (c : ascii) : scanner * opcode :=
  if negb (isSpace c) then (fst (error_ s c "after top-level value"), scanEnd)
  else (s, scanEnd).

Definition do_stateEndValue (s : scanner) (c : ascii) : scanner * opcode :=
  match parseState s with
  | [] => do_stateEndTop (set_endTop (set_step s stateEndTop)) c
  | ps :: outer =>
      if isSpace c then (set_step s stateEndValue, scanSkipSpace)
      else match ps with
           | parseObjectKey =>
               if isc c ":" then (set_step (set_parseState s (parseObjectValue :: outer)) stateBeginValue, scanObjectKey)
               else error_ s c "after object key"
           | parseObjectValue =>
               if isc c "," then (set_step (set_parseState s (parseObjectKey :: outer)) stateBeginString, scanObjectValue)
               else if isc c "}" then (popParseState s, scanEndObject)
               else error_ s c "after object key:value pair"
           | parseArrayValue =>
               if isc c "," then (set_step s stateBeginValue, scanArrayValue)
               else if isc c "]" then (popParseState s, scanEndArray)
               else error_ s c "after array element"
           end
  end.

Definition do_stateBeginValue (s : scanner) (c : ascii) : scanner * opcode :=
  if isSpace c then (s, scanSkipSpace)
  else if isc c "{" then pushParseState (set_step s stateBeginStringOrEmpty) c parseObjectKey scanBeginObject
  else if isc c "[" then pushParseState (set_step s stateBeginValueOrEmpty) c parseArrayValue scanBeginArray
  else if isc c quote then (set_step s stateInString, scanBeginLiteral)
  else if isc c "-" then (set_step s stateNeg, scanBeginLiteral)
  else if isc c "0" then (set_step s state0, scanBeginLiteral)
  else if isc c "t" then (set_step s stateT, scanBeginLiteral)
  else if isc c "f" then (set_step s stateF, scanBeginLiteral)
  else if isc c "n" then (set_step s stateN, scanBeginLiteral)
  else if between "1" c "9" then (set_step s state1, scanBeginLiteral)
  else error_ s c "looking for beginning of value".

Definition do_stateBeginValueOrEmpty (s : scanner) (c : ascii) : scanner * opcode :=
  if isSpace c then (s, scanSkipSpace)
  else if isc c "]" then do_stateEndValue s c
  else do_stateBeginValue s c.

Definition do_stateBeginString (s : scanner) (c : ascii) : scanner * opcode :=
  if isSpace c then (s, scanSkipSpace)
  else if isc c quote then (set_step s stateInString, scanBeginLiteral)
  else error_ s c "looking for beginning of object key string".

Definition do_stateBeginStringOrEmpty (s : scanner) (c : ascii) : scanner * opcode :=
  if isSpace c then (s, scanSkipSpace)
  else if isc c "}" then do_stateEndValue (set_parseState s (parseObjectValue :: tl (parseState s))) c
  else do_stateBeginString s c.

Definition do_stateInString (s : scanner) (c : ascii) : scanner * opcode :=
  if isc c quote then (set_step s stateEndValue, scanContinue)
  else if isc c backslash then (set_step s stateInStringEsc, scanContinue)
  else if byte c <? 32 then error_ s c "in string literal"
  else (s, scanContinue).

Definition do_stateInStringEsc (s : scanner) (c : ascii) : scanner * opcode :=
  if isc c "b" || isc c "f" || isc c "n" || isc c "r" || isc c "t" || isc c backslash || isc c "/" || isc c quote
  then (set_step s stateInString, scanContinue)
  else if isc c "u" then (set_step s stateInStringEscU, scanContinue)
  else error_ s c "in string escape code".

Definition inStringEscU (next : stepfn) (s : scanner) (c : ascii) : scanner * opcode :=
  if isHex c then (set_step s next, scanContinue)
  else error_ s c (String "i" (String "n" (String " " (String backslash "u hexadecimal character escape")))).

Definition do_state0 (s : scanner) (c : ascii) : scanner * opcode :=
  if isc c "." then (set_step s stateDot, scanContinue)
  else if isc c "e" || isc c "E" then (set_step s stateE, scanContinue)
  else do_stateEndValue s c.

Definition do_state1 (s : scanner) (c : ascii) : scanner * opcode :=
  if isDigit c then (set_step s state1, scanContinue)
  else do_state0 s c.

Definition do_stateNeg (s : scanner) (c : ascii) : scanner * opcode :=
  if isc c "0" then (set_step s state0, scanContinue)
  else if between "1" c "9" then (set_step s state1, scanContinue)
  else error_ s c "in numeric literal".

Definition do_stateDot (s : scanner) (c : ascii) : scanner * opcode :=
  if isDigit c then (set_step s stateDot0, scanContinue)
  else error_ s c "after decimal point in numeric literal".

Definition do_stateDot0 (s : scanner) (c : ascii) : scanner * opcode :=
  if isDigit c then (s, scanContinue)
  else if isc c "e" || isc c "E" then (set_step s stateE, scanContinue)
  else do_stateEndValue s c.

Definition do_stateESign (s : scanner) (c : ascii) : scanner * opcode :=
  if isDigit c then (set_step s stateE0, scanContinue)
  else error_ s c "in exponent of numeric literal".

Definition do_stateE (s : scanner) (c : ascii) : scanner * opcode :=
  if isc c "+" || isc c "-" then (set_step s stateESign, scanContinue)
  else do_stateESign s c.

Definition do_stateE0 (s : scanner) (c : ascii) : scanner * opcode :=
  if isDigit c then (s, scanContinue)
  else do_stateEndValue s c.

(** The states inside [true], [false] and [null]: one expected byte each. *)
Definition expect (want : ascii) (next : stepfn) (context : string) (s : scanner) (c : ascii) : scanner * opcode :=
  if isc c want then (set_step s next, scanContinue)
  else error_ s c context.

(** [s.step(s, c)] *)
Definition apply (s : scanner) (c : ascii) : scanner * opcode :=
  match step s with
  | stateBeginValue => do_stateBeginValue s c
  | stateBeginValueOrEmpty => do_stateBeginValueOrEmpty s c
  | stateBeginStringOrEmpty => do_stateBeginStringOrEmpty s c
  | stateBeginString => do_stateBeginString s c
  | stateEndValue => do_stateEndValue s c
  | stateEndTop => do_stateEndTop s c
  | stateInString => do_stateInString s c
  | stateInStringEsc => do_stateInStringEsc s c
  | stateInStringEscU => inStringEscU stateInStringEscU1 s c
  | stateInStringEscU1 => inStringEscU stateInStringEscU12 s c
  | stateInStringEscU12 => inStringEscU stateInStringEscU123 s c
  | stateInStringEscU123 => inStringEscU stateInString s c
  | stateNeg => do_stateNeg s c
  | state1 => do_state1 s c
  | state0 => do_state0 s c
  | stateDot => do_stateDot s c
  | stateDot0 => do_stateDot0 s c
  | stateE => do_stateE s c
  | stateESign => do_stateESign s c
  | stateE0 => do_stateE0 s c
  | stateT => expect "r" stateTr "in literal true (expecting 'r')" s c
  | stateTr => expect "u" stateTru "in literal true (expecting 'u')" s c
  | stateTru => expect "e" stateEndValue "in literal true (expecting 'e')" s c
  | stateF => expect "a" stateFa "in literal false (expecting 'a')" s c
  | stateFa => expect "l" stateFal "in literal false (expecting 'l')" s c
  | stateFal => expect "s" stateFals "in literal false (expecting 's')" s c
  | stateFals => expect "e" stateEndValue "in literal false (expecting 'e')" s c
  | stateN => expect "u" stateNu "in literal null (expecting 'u')" s c
  | stateNu => expect "l" stateNul "in literal null (expecting 'l')" s c
  | stateNul => expect "l" stateEndValue "in literal null (expecting 'l')" s c
  | stateError => (s, scanError)
  end.

Definition bump (s : scanner) : scanner :=
  {| step := step s; endTop := endTop s; parseState := parseState s; err := err s; bytes := bytes s + 1 |}.

(** [scanner.eof] *)
Definition eof (s : scanner) : scanner * opcode :=
  match err s with
  | Some _ => (s, scanError)
  | None =>
      if endTop s then (s, scanEnd)
      else
        let s1 := fst (apply s " ") in
        if endTop s1 then (s1, scanEnd)
        else match err s1 with
             | Some _ => (s1, scanError)
             | None =>
                 ({| step := step s1; endTop := endTop s1; parseState := parseState s1;
                     err := Some (SyntaxError "unexpected end of JSON input" (bytes s1)); bytes := bytes s1 |},
                  scanError)
             end
  end.

(** The loop of [checkValid] from a scanner state. *)
Fixpoint checkValid_from (data : list ascii) (s : scanner) : option error :=
  match data with
  | [] => let '(s1, op) := eof s in match op with scanError => err s1 | _ => None end
  | c :: rest =>
      let '(s1, op) := apply (bump s) c in
      match op with
      | scanError => err s1
      | _ => checkValid_from rest s1
      end
  end.

Definition checkValid (data : string) : option error :=
  checkValid_from (list_ascii_of_string data) reset.

(** *** Values and string literals *)

(** A JSON value as the decoder meets it, with the offset an
    [UnmarshalTypeError] for it carries: the read position once a literal
    has been scanned, or once the opening bracket of an array or object has
    been read. *)
#[local] Unset Elimination Schemes.

Inductive value : Type :=
| Null (off : Z)
| Bool (b : bool) (off : Z)
| Number (literal : string) (off : Z)
| Str (s : string) (off : Z)
| Array (items : list value) (off : Z)
| Object (members : list (string * value)) (off : Z).

#[local] Set Elimination Schemes.

Definition hexval (c : ascii) : option Z :=
  if isDigit c then Some (byte c - 48)
  else if between "a" c "f" then Some (byte c - 97 + 10)
  else if between "A" c "F" then Some (byte c - 65 + 10)
  else None.

(** The four digits of a [\uXXXX] escape, as [getu4] reads them. *)
Definition hex4 (h1 h2 h3 h4 : ascii) : option Z :=
  match hexval h1, hexval h2, hexval h3, hexval h4 with
  | Some a, Some b, Some c, Some d => Some (((a * 16 + b) * 16 + c) * 16 + d)
  | _, _, _, _ => None
  end.

(** [getu4] on the bytes that follow a first escape; [-1] when they are not
    an escape. *)
Definition getu4 (s : list ascii) : Z :=
  match s with
  | b :: u :: h1 :: h2 :: h3 :: h4 :: _ =>
      if isc b backslash && isc u "u" then
        match hex4 h1 h2 h3 h4 with
        | Some r => r
        | None => -1
        end
      else -1
  | _ => -1
  end.

Definition IsSurrogate (r : Z) : bool := (55296 <=? r) && (r <? 57344).

(** [utf16.DecodeRune] *)
Definition utf16_DecodeRune (r1 r2 : Z) : Z :=
  if (55296 <=? r1) && (r1 <? 56320) && (56320 <=? r2) && (r2 <? 57344)
  then Z.lor (Z.shiftl (r1 - 55296) 10) (r2 - 56320) + 65536
  else RuneError.

Definition escaped (e : ascii) : option ascii :=
  if isc e quote || isc e backslash || isc e "/" || isc e "'" then Some e
  else if isc e "b" then Some "008"%char
  else if isc e "f" then Some "012"%char
  else if isc e "n" then Some "010"%char
  else if isc e "r" then Some "013"%char
  else if isc e "t" then Some "009"%char
  else None.

(** The copying loop of [unquoteBytes] over the bytes between the quotes:
    escapes are replaced, bytes that are not well-formed UTF-8 become
    U+FFFD.  [None] is [ok == false]. *)
Fixpoint unquote (s : list ascii) : option (list ascii) :=
  match s with
  | [] => Some []
  | c :: r1 =>
      if isc c backslash then
        match r1 with
        | [] => None
        | e :: r2 =>
            if isc e "u" then
              match r2 with
              | h1 :: h2 :: h3 :: h4 :: r6 =>
                  match hex4 h1 h2 h3 h4 with
                  | None => None
                  | Some rr =>
                      if IsSurrogate rr then
                        let dec := utf16_DecodeRune rr (getu4 r6) in
                        if negb (dec =? RuneError) then
                          match r6 with
                          | _ :: _ :: _ :: _ :: _ :: _ :: r12 => option_map (app (EncodeRune dec)) (unquote r12)
                          | _ => None
                          end
                        else option_map (app (EncodeRune RuneError)) (unquote r6)
                      else option_map (app (EncodeRune rr)) (unquote r6)
                  end
              | _ => None
              end
            else
              match escaped e with
              | Some b => option_map (cons b) (unquote r2)
              | None => None
              end
        end
      else if isc c quote || (byte c <? 32) then None
      else if byte c <? 128 then option_map (cons c) (unquote r1)
      else
        let '(rr, size) := DecodeRune c r1 in
        match size, r1 with
        | 2%nat, _ :: r2 => option_map (app (EncodeRune rr)) (unquote r2)
        | 3%nat, _ :: _ :: r3 => option_map (app (EncodeRune rr)) (unquote r3)
        | 4%nat, _ :: _ :: _ :: r4 => option_map (app (EncodeRune rr)) (unquote r4)
        | _, _ => option_map (app (EncodeRune rr)) (unquote r1)
        end
  end.

(** [unquoteBytes]: the literal must start and end with a quote. *)
Definition unquoteBytes (item : list ascii) : option string :=
  match item with
  | q :: rest =>
      if isc q quote && (2 <=? List.length item)%nat && isc (last rest "000"%char) quote
      then option_map string_of_list_ascii (unquote (removelast rest))
      else None
  | [] => None
  end.

(** The value of a scanned literal, told by its first byte as
    [literalStore] does. *)
Definition literal_value (item : list ascii) (off : Z) : option value :=
  match item with
  | [] => None
  | c :: _ =>
      if isc c "n" then Some (Null off)
      else if isc c "t" then Some (Bool true off)
      else if isc c "f" then Some (Bool false off)
      else if isc c quote then option_map (fun s => Str s off) (unquoteBytes item)
      else Some (Number (string_of_list_ascii item) off)
  end.

(** *** Walking the input

    The walk keeps what the recursion of the decoder keeps on its call
    stack: the containers that are open, the members or elements each has
    so far (latest first) and, in an object, the key read and waiting for its
    value. *)
Inductive frame : Type :=
| InObject (off : Z) (members : list (string * value)) (key : option string)
| InArray (off : Z) (items : list value).

Record walk : Type :=
  { literal : option (list ascii);   (* the bytes of the literal being read, latest first *)
    frames : list frame;             (* innermost first *)
    top : option value }.

Definition start : walk := {| literal := None; frames := []; top := None |}.

(** A complete value goes to the innermost open container, or is the
    top-level value.  [None]: the walk and the scanner disagree. *)
Definition deliver (v : value) (w : walk) : option walk :=
  match frames w with
  | [] => Some {| literal := literal w; frames := []; top := Some v |}
  | InObject off ms None :: outer =>
      match v with
      | Str k _ => Some {| literal := literal w; frames := InObject off ms (Some k) :: outer; top := top w |}
      | _ => None
      end
  | InObject off ms (Some k) :: outer =>
      Some {| literal := literal w; frames := InObject off ((k, v) :: ms) None :: outer; top := top w |}
  | InArray off items :: outer =>
      Some {| literal := literal w; frames := InArray off (v :: items) :: outer; top := top w |}
  end.

(** A literal ends before the first byte that does not continue it. *)
Definition end_literal (w : walk) (i : Z) : option walk :=
  match literal w with
  | None => Some w
  | Some item =>
      match literal_value (rev item) i with
      | Some v => deliver v {| literal := None; frames := frames w; top := top w |}
      | None => None
      end
  end.

(** The walk's reaction to a byte that begins or ends something. *)
Definition structural (w : walk) (op : opcode) (c : ascii) (i : Z) : option walk :=
  match op with
  | scanBeginLiteral => Some {| literal := Some [c]; frames := frames w; top := top w |}
  | scanBeginObject =>
      Some {| literal := None; frames := InObject (i + 1) [] None :: frames w; top := top w |}
  | scanBeginArray =>
      Some {| literal := None; frames := InArray (i + 1) [] :: frames w; top := top w |}
  | scanEndObject =>
      match frames w with
      | InObject off ms None :: outer =>
          deliver (Object (rev ms) off) {| literal := None; frames := outer; top := top w |}
      | _ => None
      end
  | scanEndArray =>
      match frames w with
      | InArray off items :: outer =>
          deliver (Array (rev items) off) {| literal := None; frames := outer; top := top w |}
      | _ => None
      end
  | _ => Some w
  end.

(** The walk's reaction to byte [c] at index [i], for which the scanner
    answered [op]. *)
Definition react (w : walk) (op : opcode) (c : ascii) (i : Z) : option walk :=
  match op with
  | scanContinue =>
      match literal w with
      | Some item => Some {| literal := Some (c :: item); frames := frames w; top := top w |}
      | None => None
      end
  | scanError => None
  | _ =>
      match end_literal w i with
      | None => None
      | Some w1 => structural w1 op c i
      end
  end.

Fixpoint parse_from (data : list ascii) (i : Z) (s : scanner) (w : walk) : option value :=
  match data with
  | [] =>
      match snd (eof s) with
      | scanError => None
      | _ => match end_literal w i with
             | Some w1 => match frames w1 with [] => top w1 | _ :: _ => None end
             | None => None
             end
      end
  | c :: rest =>
      let '(s1, op) := apply (bump s) c in
      match react w op c i with
      | Some w1 => parse_from rest (i + 1) s1 w1
      | None => None
      end
  end.

(** The top-level value of a valid input. *)
Definition parse (data : string) : option value :=
  parse_from (list_ascii_of_string data) 0 reset start.

(** *** Decoding into a [User] *)

(** ASCII letters to upper case.  The library folds every rune to the
    smallest of its case-folding class; no rune outside ASCII folds to one of
    N, A, M, E, so comparing with the folded field name gives the same
    answer. *)
Definition fold_byte (c : ascii) : ascii :=
  if between "a" c "z" then of_byte (byte c - 32) else c.

Fixpoint foldName (s : string) : string :=
  match s with
  | EmptyString => EmptyString
  | String c rest => String (fold_byte c) (foldName rest)
  end.

(** Does the key of an object member select the field tagged [name]?  An
    exact match, else a match under case folding. *)
Definition selects_name (key : string) : bool :=
  String.eqb key "name" || String.eqb (foldName key) (foldName "name").

(** [decodeState.saveError]: the first error is kept. *)
Definition saveError (saved : option error) (e : error) : option error :=
  match saved with
  | Some _ => saved
  | None => Some e
  end.

(** A value met where the [Name] field (a Go [string]) is to be stored. *)
Definition store_name (v : value) (u : User) (saved : option error) : User * option error :=
  let mismatch (what : string) (off : Z) :=
    (u, saveError saved (UnmarshalTypeError what "string" off "User" "name")) in
  match v with
  | Str s _ => ({| Name := s |}, saved)
  | Null _ => (u, saved)
  | Bool _ off => mismatch "bool"%string off
  | Number _ off => mismatch "number"%string off
  | Array _ off => mismatch "array"%string off
  | Object _ off => mismatch "object"%string off
  end.

(** The members of the object in turn; those that select no field are
    skipped. *)
Fixpoint decode_members (ms : list (string * value)) (u : User) (saved : option error) : User * option error :=
  match ms with
  | [] => (u, saved)
  | (k, v) :: rest =>
      if selects_name k then
        let '(u1, saved1) := store_name v u saved in decode_members rest u1 saved1
      else decode_members rest u saved
  end.

(** A top-level value met where a [User] (a Go struct) is to be stored. *)
Definition decode (v : value) (u : User) : User * option error :=
  let mismatch (what : string) (off : Z) :=
    (u, Some (UnmarshalTypeError what "main.User" off EmptyString EmptyString)) in
  match v with
  | Object ms _ => decode_members ms u None
  | Null _ => (u, None)
  | Bool _ off => mismatch "bool"%string off
  | Number _ off => mismatch "number"%string off
  | Str _ off => mismatch "string"%string off
  | Array _ off => mismatch "array"%string off
  end.

(** [json.Unmarshal(data, &user)].  [Panicked] is the decoder's panic when
    its second scan of the input does not agree with the first. *)
Definition Unmarshal (data : string) (user : User) : outcome (User * option error) :=
  match checkValid data with
  | Some e => Returned (user, Some e)
  | None =>
      match parse data with
      | Some v => Returned (decode v user)
      | None => Panicked
      end
  end.

(** *** The walk agrees with the scanner

    What relates the two along an input the scanner accepts: the containers
    the walk has open are those of [parseState], and a literal being read is
    one that [literal_value] accepts once complete. *)

(** A byte that stands for itself inside a string literal. *)
Definition plain (c : ascii) : Prop :=
  isc c quote = false /\ isc c backslash = false /\ (byte c <? 32) = false.

Definition simple_escape (e : ascii) : bool :=
  isc e "b" || isc e "f" || isc e "n" || isc e "r" || isc e "t" || isc e backslash || isc e "/" || isc e quote.

(** The bytes between the quotes of a string literal the scanner accepts. *)
Inductive string_body : list ascii -> Prop :=
| body_nil : string_body []
| body_plain (c : ascii) (r : list ascii) : plain c -> string_body r -> string_body (c :: r)
| body_escape (e : ascii) (r : list ascii) :
    simple_escape e = true -> string_body r -> string_body (backslash :: e :: r)
| body_hex (h1 h2 h3 h4 : ascii) (r : list ascii) :
    isHex h1 = true -> isHex h2 = true -> isHex h3 = true -> isHex h4 = true ->
    string_body r -> string_body (backslash :: "u"%char :: h1 :: h2 :: h3 :: h4 :: r).

(** The bytes read after the opening quote, by the state of the scanner. *)
Definition string_progress (f : stepfn) (rest : list ascii) : Prop :=
  exists done : list ascii,
    string_body done /\
    match f with
    | stateInString => rest = done
    | stateInStringEsc => rest = done ++ [backslash]
    | stateInStringEscU => rest = done ++ [backslash; "u"%char]
    | stateInStringEscU1 =>
        exists h1, isHex h1 = true /\ rest = done ++ [backslash; "u"%char; h1]
    | stateInStringEscU12 =>
        exists h1 h2, isHex h1 = true /\ isHex h2 = true /\ rest = done ++ [backslash; "u"%char; h1; h2]
    | stateInStringEscU123 =>
        exists h1 h2 h3, isHex h1 = true /\ isHex h2 = true /\ isHex h3 = true
                         /\ rest = done ++ [backslash; "u"%char; h1; h2; h3]
    | stateEndValue => rest = done ++ [quote]
    | _ => False
    end.

(** The states the scanner is in while or just after it reads a number,
    [true], [false] or [null]. *)
Definition in_plain_literal (f : stepfn) : bool :=
  match f with
  | stateNeg | state1 | state0 | stateDot | stateDot0 | stateE | stateESign | stateE0
  | stateT | stateTr | stateTru | stateF | stateFa | stateFal | stateFals | stateN | stateNu | stateNul
  | stateEndValue => true
  | _ => false
  end.

(** An outer container waits for the value being read inside it. *)
Definition waiting (p : parse_state) (f : frame) : Prop :=
  match p, f with
  | parseArrayValue, InArray _ _ => True
  | parseObjectValue, InObject _ _ (Some _) => True
  | _, _ => False
  end.

(** The innermost container has just received something. *)
Definition received (p : parse_state) (f : frame) : Prop :=
  match p, f with
  | parseArrayValue, InArray _ _ => True
  | parseObjectValue, InObject _ _ None => True
  | parseObjectKey, InObject _ _ (Some _) => True
  | _, _ => False
  end.

Definition expects_key (p : parse_state) (f : frame) : Prop :=
  match p, f with
  | parseObjectKey, InObject _ _ None => True
  | _, _ => False
  end.

(** The walk just after a value has been delivered to it. *)
Definition settled (ps : list parse_state) (w : walk) : Prop :=
  literal w = None /\
  match ps, frames w with
  | [], [] => exists v, top w = Some v
  | p :: outer, f :: fs => received p f /\ Forall2 waiting outer fs
  | _, _ => False
  end.

Inductive agree (s : scanner) (w : walk) : Prop :=
| agree_value :
    err s = None -> endTop s = false -> literal w = None ->
    step s = stateBeginValue -> Forall2 waiting (parseState s) (frames w) ->
    agree s w
| agree_array :
    err s = None -> endTop s = false -> literal w = None ->
    step s = stateBeginValueOrEmpty ->
    forall p outer f fs, parseState s = p :: outer -> frames w = f :: fs ->
                         p = parseArrayValue -> waiting p f -> Forall2 waiting outer fs ->
    agree s w
| agree_key :
    err s = None -> endTop s = false -> literal w = None ->
    step s = stateBeginStringOrEmpty \/ step s = stateBeginString ->
    forall p outer f fs, parseState s = p :: outer -> frames w = f :: fs ->
                         expects_key p f -> Forall2 waiting outer fs ->
    agree s w
| agree_string :
    err s = None -> endTop s = false ->
    forall item rest, literal w = Some item -> rev item = quote :: rest ->
                      string_progress (step s) rest ->
    (Forall2 waiting (parseState s) (frames w)
     \/ exists p outer f fs, parseState s = p :: outer /\ frames w = f :: fs
                             /\ expects_key p f /\ Forall2 waiting outer fs) ->
    agree s w
| agree_literal :
    err s = None -> endTop s = false ->
    forall item first rest, literal w = Some item -> rev item = first :: rest -> isc first quote = false ->
    in_plain_literal (step s) = true ->
    Forall2 waiting (parseState s) (frames w) ->
    agree s w
| agree_received :
    err s = None -> endTop s = false -> literal w = None ->
    step s = stateEndValue ->
    forall p outer f fs, parseState s = p :: outer -> frames w = f :: fs ->
                         received p f -> Forall2 waiting outer fs ->
    agree s w
| agree_done :
    err s = None -> endTop s = true -> literal w = None ->
    step s = stateEndTop -> parseState s = [] -> frames w = [] ->
    forall v, top w = Some v ->
    agree s w.

End json.

(** *** The consumer *)

(** [http.Response], through the two fields used.  [Body] is an
    [io.ReadCloser]: a reference to a body object, or nil. *)
Record Response (B : Type) : Type := { StatusCode : Z; Body : option B }.

Arguments StatusCode {B} _.
Arguments Body {B} _.

Definition StatusOK : Z := 200.

(** What [GetUser] touches: the [HTTPClient] interface, called on a client
    [c], and the body of the response it receives ([io.ReadAll] on it, and
    its [Close]).  [Get] answers with a response pointer and an error, each
    of which may be nil. *)
Inductive HTTPClient (C B : Type) : Type -> Type :=
| Get (client : C) (url : string) : HTTPClient C B (option (Response B) * option error)
| ReadAll (body : B) : HTTPClient C B (string * option error)
| Close (body : B) : HTTPClient C B (option error).

Arguments Get {C B} client url.
Arguments ReadAll {C B} body.
Arguments Close {C B} body.

Definition user_url (id : Z) : string :=
  fmt.Sprintf "https://jsonplaceholder.typicode.com/users/%d" [fmt.Int id].

(** What follows [defer resp.Body.Close()]. *)
Definition after_defer {C B : Type} (resp : Response B) (b : B)
  : prog (HTTPClient C B) (outcome (User * option error)) :=
  if negb (StatusCode resp =? StatusOK) then
    Ret (Returned (zero, Some (fmt.Errorf "unexpected status code: %d" [fmt.Int (StatusCode resp)])))
  else
    (read <- trigger (ReadAll b) ;;
     match snd read with
     | Some e => Ret (Returned (zero, Some (fmt.Errorf "failed to read response: %w" [fmt.Err e])))
     | None =>
         match json.Unmarshal (fst read) zero with
         | Returned (_, Some e) => Ret (Returned (zero, Some (fmt.Errorf "failed to parse user: %w" [fmt.Err e])))
         | Returned (user, None) => Ret (Returned (user, None))
         | Panicked => Ret Panicked
         end
     end)%prog.

(** [GetUser(client, id)].  Using a nil response, or taking [Close] from a
    nil body, panics. *)
Definition GetUser {C B : Type} (client : C) (id : Z) : prog (HTTPClient C B) (outcome (User * option error)) :=
  let url := user_url id in
  (got <- trigger (Get client url) ;;
   match snd got with
   | Some e => Ret (Returned (zero, Some (fmt.Errorf "failed to fetch user: %w" [fmt.Err e])))
   | None =>
       match fst got with
       | None => Ret Panicked
       | Some resp =>
           match Body resp with
           | None => Ret Panicked
           | Some b => defer (trigger (Close b)) (after_defer resp b)
           end
       end
   end)%prog.

(** *** Test doubles *)

(** [mockHTTPClient] of the test file.  Each [Get] that succeeds makes a new
    buffer holding [body], wrapped by [io.NopCloser]; buffers live in a store
    and a response refers to its buffer by position. *)
Record mockHTTPClient : Type := { statusCode : Z; body : string; err : option error }.

Fixpoint drain (buffers : list string) (p : nat) : list string :=
  match buffers, p with
  | [], _ => []
  | _ :: rest, O => EmptyString :: rest
  | b :: rest, S q => b :: drain rest q
  end.

Definition mock : handler (HTTPClient mockHTTPClient nat) (list string) :=
  fun X e buffers =>
    match e in HTTPClient _ _ T return T * list string with
    | Get m _ =>
        match err m with
        | Some e => ((None, Some e), buffers)
        | None =>
            ((Some {| StatusCode := statusCode m; Body := Some (List.length buffers) |}, None),
             buffers ++ [body m])
        end
    | ReadAll p => ((nth p buffers EmptyString, None), drain buffers p)
    | Close _ => (None, buffers)
    end.

(** A double with every answer fixed in advance, for the paths the
    repository's own double cannot take (a read that fails, a [Close] that
    reports an error, nil answers). *)
Record scripted : Type :=
  { get_resp : option (Response unit); get_err : option error;
    read_data : string; read_err : option error; close_err : option error }.

Definition script (d : scripted) : handler (HTTPClient unit unit) unit :=
  fun X e s =>
    match e in HTTPClient _ _ T return T * unit with
    | Get _ _ => ((get_resp d, get_err d), s)
    | ReadAll _ => ((read_data d, read_err d), s)
    | Close _ => (close_err d, s)
    end.

(** Bodies a double may serve: the one of the test table, written out
    byte by byte, and the same without the space; two objects that have no
    member for the field; text that is not JSON. *)
Definition quoted (s : string) : string := String quote (s ++ String quote EmptyString).
Definition body_john_doe : string := ("{" ++ quoted "name" ++ ": " ++ quoted "John Doe" ++ "}")%string.
Definition body_john_doe_compact : string := ("{" ++ quoted "name" ++ ":" ++ quoted "John Doe" ++ "}")%string.
Definition body_empty_object : string := "{}".
Definition body_other : string := ("{" ++ quoted "other" ++ ": 1}")%string.
Definition body_invalid : string := "invalid json".

(** The [Close] calls among the calls of a run. *)
Fixpoint closes {C B : Type} (cs : list (call (HTTPClient C B))) : list B :=
  match cs with
  | [] => []
  | Call e :: rest =>
      match e with
      | Close b => b :: closes rest
      | _ => closes rest
      end
  end.

End api_call.

(** ** Production wiring

    In production the operations of an interface are methods, themselves
    programs over what they call; a panic in a method ends the caller. *)

(** [p] and then [k] on what it returned, unless it panicked. *)
Definition after {E : Type -> Type} {A B : Type} (p : prog E (outcome A)) (k : A -> prog E (outcome B))
  : prog E (outcome B) :=
  bind p (fun o => match o with
                   | Returned a => k a
                   | Panicked => Ret Panicked
                   end).

(** A consumer over [E] with every operation of [E] dispatched to its
    method [impl], a program over [F]. *)
Fixpoint translate {E F : Type -> Type} {R : Type} (impl : forall X, E X -> prog F (outcome X)) (p : prog E R)
  : prog F (outcome R) :=
  match p with
  | Ret r => Ret (Returned r)
  | Vis e k => after (impl _ e) (fun x => translate impl (k x))
  end.

(** A program over [E] inside a program that has more at hand. *)
Fixpoint inject {E F : Type -> Type} {R : Type} (into : forall X, E X -> F X) (p : prog E R) : prog F R :=
  match p with
  | Ret r => Ret r
  | Vis e k => Vis (into _ e) (fun x => inject into (k x))
  end.

Definition inject_call {E F : Type -> Type} (into : forall X, E X -> F X) (c : call E) : call F :=
  match c with
  | Call e => Call (into _ e)
  end.

(** Standard output: one write per call of [fmt.Println] or [fmt.Printf]. *)
Inductive Stdout : Type -> Type :=
| Write (text : string) : Stdout unit.

Inductive either (E F : Type -> Type) (X : Type) : Type :=
| OnLeft (e : E X)
| OnRight (f : F X).

Arguments OnLeft {E F X} e.
Arguments OnRight {E F X} f.

Definition Println {F : Type -> Type} (line : string) : prog (either Stdout F) (outcome unit) :=
  Vis (OnLeft (Write (line ++ newline))) (fun _ => Ret (Returned tt)).

Definition Printf {F : Type -> Type} (f : string) (args : list fmt.arg) : prog (either Stdout F) (outcome unit) :=
  Vis (OnLeft (Write (fmt.Sprintf f args))) (fun _ => Ret (Returned tt)).

(** The terminal keeps what was written, oldest first. *)
Definition console : handler Stdout (list string) :=
  fun X e out => match e in Stdout T return T * list string with
                 | Write text => (tt, out ++ [text])
                 end.

(** Two implementations side by side, each with its own state. *)
Definition beside {E F : Type -> Type} {A B : Type} (ha : handler E A) (hb : handler F B)
  : handler (either E F) (A * B) :=
  fun X e s =>
    match e with
    | OnLeft e => let '(x, a) := ha X e (fst s) in (x, (a, snd s))
    | OnRight f => let '(x, b) := hb X f (snd s) in (x, (fst s, b))
    end.

(** *** [demos/rng]: [main] *)

Module rng_main.

(** [*RandomStringGenerator] as a [StringGenerator]. *)
Definition production {R : Type} : forall X, rng.StringGenerator (rng.RandomStringGenerator R) X
                                             -> prog (rng.Rand R) (outcome X) :=
  fun X e => match e in rng.StringGenerator _ T return prog (rng.Rand R) (outcome T) with
             | rng.Generate g => rng.RandomStringGenerator_Generate g
             end.

(** [nameGen.GenerateName(baseName)] as [main] calls it. *)
Definition GenerateName {R : Type} (nameGen : rng.NameGenerator (rng.RandomStringGenerator R)) (baseName : string)
  : prog (either Stdout (rng.Rand R)) (outcome string) :=
  inject (fun X => OnRight) (translate production (rng.GenerateName nameGen baseName)).

(** [main], on the source [rand.New(rand.NewSource(time.Now().UnixNano()))]
    gave it: the seed is the state the source starts in. *)
Definition main {R : Type} (source : R) : prog (either Stdout (rng.Rand R)) (outcome unit) :=
  let strGen := {| rng.rng := source |} in
  let nameGen := {| rng.generator := strGen |} in
  after (Println "Generated names:") (fun _ =>
  after (GenerateName nameGen "my-pod") (fun pod =>
  after (Printf ("  Pod:        %s" ++ newline) [fmt.Str pod]) (fun _ =>
  after (GenerateName nameGen "nginx-deployment") (fun deployment =>
  after (Printf ("  Deployment: %s" ++ newline) [fmt.Str deployment]) (fun _ =>
  after (GenerateName nameGen "api-service") (fun service =>
  Printf ("  Service:    %s" ++ newline) [fmt.Str service])))))).

End rng_main.

(** *** [demos/api-call]: [main] *)

Module api_call_main.

Import api_call.

(** [main] with [client] for [&http.Client{}]. *)
Definition main {C B : Type} (client : C) : prog (either Stdout (HTTPClient C B)) (outcome unit) :=
  after (inject (fun X => OnRight) (GetUser client 1)) (fun got =>
    match snd got with
    | Some err => Printf ("Error: %v" ++ newline) [fmt.Err err]
    | None => Printf ("User: %s" ++ newline) [fmt.Str (Name (fst got))]
    end).

End api_call_main.

(** *** [demos/sleeper]: the production sleeper *)

Module sleeper_production.

(** Package [time], through [time.Sleep]. *)
Inductive Time : Type -> Type :=
| time_Sleep (d : sleeper.Duration) : Time unit.

(** [realSleeper{}] as a [Sleeper], and [fmt.Println] on the terminal. *)
Definition realSleeper : forall X, sleeper.Sleeper unit X -> prog (either Stdout Time) (outcome X) :=
  fun X e => match e in sleeper.Sleeper _ T return prog (either Stdout Time) (outcome T) with
             | sleeper.Println line => Println line
             | sleeper.Sleep _ d => Vis (OnRight (time_Sleep d)) (fun _ => Ret (Returned tt))
             end.

End sleeper_production.

(** *** The slide deck's code *)

Module slides.

(** "Without interfaces": [GenerateName] draws from the global source
    itself. *)
Definition GenerateName_direct (baseName : string) : prog (rng.Rand unit) (outcome string) :=
  after (rng.fill {| rng.rng := tt |} (seq 0 5) (repeat Ascii.zero 5)) (fun b =>
    let suffix := string_of_list_ascii b in
    Ret (Returned (fmt.Sprintf "%s-%s" [fmt.Str baseName; fmt.Str suffix]))).

(** "Without interfaces": [DoWork] calls [time.Sleep] itself and returns
    ["done"]. *)
Definition DoWork_direct : prog (either Stdout sleeper_production.Time) (outcome (list value)) :=
  after (Println "Starting work...") (fun _ =>
  after (Vis (OnRight (sleeper_production.time_Sleep (2 * sleeper.Second))) (fun _ => Ret (Returned tt))) (fun _ =>
  after (Println "Work complete!") (fun _ =>
  Ret (Returned [VString "done"])))).

(** "With interfaces": [DoWork] as on the slide, returning ["done"]. *)
Definition DoWork {S : Type} (w : sleeper.Worker S) : prog (sleeper.Sleeper S) (list value) :=
  (trigger (sleeper.Println "Starting work...") ;;
   trigger (sleeper.Sleep (sleeper.sleeper w) (2 * sleeper.Second)) ;;
   trigger (sleeper.Println "Work complete!") ;;
   Ret [VString "done"])%prog.

End slides.

(** * Properties *)

Import api_call.

(** ** [json.Unmarshal] returns

    The decoder's panic is never reached: on every input the scanner
    accepts, the walk that follows it ends holding the top-level value. *)

Module json_facts.

Import json.

Lemma isc_eq (c k : ascii) : isc c k = true -> c = k.
Proof. apply Ascii.eqb_eq. Qed.

Lemma simple_escape_escaped (e : ascii) :
  simple_escape e = true -> isc e "u" = false /\ exists b, escaped e = Some b.
Proof.
  unfold simple_escape. rewrite !orb_true_iff.
  intros H. repeat destruct H as [H | H]; apply isc_eq in H; subst e; (split; [reflexivity | eexists; reflexivity]).
Qed.

Lemma isHex_hexval (h : ascii) : isHex h = true -> exists v, hexval h = Some v.
Proof.
  unfold isHex, hexval. intros H.
  destruct (isDigit h); [eexists; reflexivity |].
  destruct (between "a" h "f"); [eexists; reflexivity |].
  destruct (between "A" h "F"); [eexists; reflexivity |]. discriminate.
Qed.

Lemma isHex_hex4 (h1 h2 h3 h4 : ascii) :
  isHex h1 = true -> isHex h2 = true -> isHex h3 = true -> isHex h4 = true ->
  exists r, hex4 h1 h2 h3 h4 = Some r.
Proof.
  intros H1 H2 H3 H4. unfold hex4.
  destruct (isHex_hexval _ H1) as [a ->], (isHex_hexval _ H2) as [b ->],
           (isHex_hexval _ H3) as [c ->], (isHex_hexval _ H4) as [d ->].
  eexists; reflexivity.
Qed.

(** A byte of 128 or more is plain, so a body keeps being one without it. *)
Lemma string_body_high (b : ascii) (r : list ascii) :
  128 <= byte b -> string_body (b :: r) -> string_body r.
Proof.
  intros Hb H. inversion H; subst; try assumption.
  - exfalso. change (byte backslash) with 92 in Hb. lia.
  - exfalso. change (byte backslash) with 92 in Hb. lia.
Qed.

Lemma DecodeRune_width (c : ascii) (r1 : list ascii) :
  match snd (DecodeRune c r1), r1 with
  | 2%nat, b1 :: _ => 128 <= byte b1
  | 3%nat, b1 :: b2 :: _ => 128 <= byte b1 /\ 128 <= byte b2
  | 4%nat, b1 :: b2 :: b3 :: _ => 128 <= byte b1 /\ 128 <= byte b2 /\ 128 <= byte b3
  | _, _ => True
  end.
Proof.
  unfold DecodeRune.
  destruct (byte c <? 128); [exact I |].
  destruct (first (byte c)) as [[[sz lo] hi] |] eqn:Hfirst; [| exact I].
  assert (Hlo : 128 <= lo).
  { unfold first in Hfirst.
    repeat match type of Hfirst with
           | (if ?b then _ else _) = _ => destruct b
           end; inversion Hfirst; lia. }
  destruct r1 as [| b1 r2]; [exact I |].
  destruct ((lo <=? byte b1) && (byte b1 <=? hi)) eqn:H1; [| destruct r2 as [| ? [| ? ?]]; exact I].
  apply andb_true_iff in H1. destruct H1 as [H1 _]. apply Z.leb_le in H1.
  cbn [negb]. destruct (sz <=? 2)%nat; [cbn; lia |].
  destruct r2 as [| b2 r3]; [exact I |].
  unfold continuation.
  destruct ((128 <=? byte b2) && (byte b2 <=? 191)) eqn:H2; [| destruct r3 as [| ? ?]; exact I].
  apply andb_true_iff in H2. destruct H2 as [H2 _]. apply Z.leb_le in H2.
  cbn [negb]. destruct (sz <=? 3)%nat; [cbn; lia |].
  destruct r3 as [| b3 r4]; [exact I |].
  destruct ((128 <=? byte b3) && (byte b3 <=? 191)) eqn:H3; [| exact I].
  apply andb_true_iff in H3. destruct H3 as [H3 _]. apply Z.leb_le in H3.
  cbn. lia.
Qed.

Lemma option_map_some {A B : Type} (f : A -> B) (o : option A) :
  (exists a, o = Some a) -> exists b, option_map f o = Some b.
Proof.
  intros [a ->]. eexists; reflexivity.
Qed.

Lemma getu4_escape (r6 : list ascii) :
  56320 <= getu4 r6 ->
  exists g1 g2 g3 g4 r12, r6 = backslash :: "u"%char :: g1 :: g2 :: g3 :: g4 :: r12.
Proof.
  unfold getu4. intros H.
  destruct r6 as [| b [| u [| g1 [| g2 [| g3 [| g4 r12]]]]]]; try lia.
  destruct (isc b backslash) eqn:Hb; [| cbn in H; lia].
  destruct (isc u "u") eqn:Hu; [| cbn in H; lia].
  apply isc_eq in Hb, Hu. subst. now exists g1, g2, g3, g4, r12.
Qed.

Lemma utf16_pair (r1 r2 : Z) : utf16_DecodeRune r1 r2 <> RuneError -> 56320 <= r2.
Proof.
  unfold utf16_DecodeRune.
  destruct ((55296 <=? r1) && (r1 <? 56320) && (56320 <=? r2) && (r2 <? 57344)) eqn:E;
    [| congruence].
  intros _. rewrite !andb_true_iff in E. destruct E as [[[_ _] E] _]. now apply Z.leb_le.
Qed.

Lemma string_body_after_hex (g1 g2 g3 g4 : ascii) (r : list ascii) :
  string_body (backslash :: "u"%char :: g1 :: g2 :: g3 :: g4 :: r) -> string_body r.
Proof.
  intros H. inversion H; subst.
  - destruct H2 as (_ & Hb & _). discriminate Hb.
  - discriminate H2.
  - assumption.
Qed.

Lemma unquote_body (n : nat) (s : list ascii) :
  (List.length s <= n)%nat -> string_body s -> exists r, unquote s = Some r.
Proof.
  revert s. induction n as [| n IH]; intros s Hlen Hbody.
  - destruct s; [eexists; reflexivity | simpl in Hlen; lia].
  - inversion Hbody as [| c r Hplain Hr | e r He Hr | h1 h2 h3 h4 r H1 H2 H3 H4 Hr]; subst.
    + eexists; reflexivity.
    + destruct Hplain as (Hq & Hb & Hctl). simpl in Hlen.
      cbn [unquote]. rewrite Hb, Hq, Hctl. cbn [orb].
      destruct (byte c <? 128).
      * apply option_map_some, IH; [lia | assumption].
      * pose proof (DecodeRune_width c r) as Hw.
        destruct (DecodeRune c r) as [rr size]. cbn [snd] in Hw.
        destruct size as [| [| [| [| [| size]]]]];
          try (apply option_map_some, IH; [lia | assumption]).
        -- destruct r as [| b1 r2]; [apply option_map_some, IH; [lia | assumption] |].
           apply option_map_some, IH; [simpl in Hlen; lia |].
           now apply (string_body_high b1).
        -- destruct r as [| b1 [| b2 r3]]; try (apply option_map_some, IH; [lia | assumption]).
           apply option_map_some, IH; [simpl in Hlen; lia |].
           apply (string_body_high b2); [lia |]. apply (string_body_high b1); [lia | assumption].
        -- destruct r as [| b1 [| b2 [| b3 r4]]]; try (apply option_map_some, IH; [lia | assumption]).
           apply option_map_some, IH; [simpl in Hlen; lia |].
           apply (string_body_high b3); [lia |]. apply (string_body_high b2); [lia |].
           apply (string_body_high b1); [lia | assumption].
    + destruct (simple_escape_escaped e He) as (Hu & b & Hesc). simpl in Hlen.
      cbn [unquote]. change (isc backslash backslash) with true. cbn iota.
      rewrite Hu, Hesc. apply option_map_some, IH; [lia | assumption].
    + destruct (isHex_hex4 _ _ _ _ H1 H2 H3 H4) as [rr Hrr]. simpl in Hlen.
      cbn [unquote]. change (isc backslash backslash) with true. change (isc "u" "u") with true.
      cbn iota. rewrite Hrr.
      destruct (IsSurrogate rr); [| apply option_map_some, IH; [lia | assumption]].
      destruct (utf16_DecodeRune rr (getu4 r) =? RuneError) eqn:Hdec;
        [cbn [negb]; apply option_map_some, IH; [lia | assumption] |].
      cbn [negb]. apply Z.eqb_neq in Hdec.
      destruct (getu4_escape r (utf16_pair _ _ Hdec)) as (g1 & g2 & g3 & g4 & r12 & ->).
      apply option_map_some, IH; [simpl in Hlen |- *; lia |].
      now apply (string_body_after_hex g1 g2 g3 g4).
Qed.

Lemma string_body_app (a b : list ascii) : string_body a -> string_body b -> string_body (a ++ b).
Proof.
  intros Ha Hb. induction Ha; cbn [app]; try assumption; constructor; assumption.
Qed.

Lemma last_snoc {A : Type} (l : list A) (x d : A) : last (l ++ [x]) d = x.
Proof.
  induction l as [| a l IH]; [reflexivity |].
  cbn [app]. destruct (l ++ [x]) eqn:E; [destruct l; discriminate | exact IH].
Qed.

Lemma unquoteBytes_literal (done : list ascii) :
  string_body done -> exists s, unquoteBytes (quote :: done ++ [quote]) = Some s.
Proof.
  intros Hbody. unfold unquoteBytes.
  change (isc quote quote) with true. rewrite last_snoc. change (isc quote quote) with true.
  replace (2 <=? List.length (quote :: done ++ [quote]))%nat with true
    by (symmetry; apply Nat.leb_le; cbn [List.length]; rewrite length_app; simpl; lia).
  cbn [andb]. rewrite removelast_last.
  destruct (unquote_body (List.length done) done (le_n _) Hbody) as [r ->].
  eexists; reflexivity.
Qed.

Lemma literal_value_of_string (done : list ascii) (i : Z) :
  string_body done -> exists s, literal_value (quote :: done ++ [quote]) i = Some (Str s i).
Proof.
  intros Hbody. destruct (unquoteBytes_literal done Hbody) as [s Hs].
  exists s. unfold literal_value.
  change (isc quote "n") with false. change (isc quote "t") with false.
  change (isc quote "f") with false. change (isc quote quote) with true. cbn iota.
  now rewrite Hs.
Qed.

Lemma literal_value_of_plain (first : ascii) (rest : list ascii) (i : Z) :
  isc first quote = false -> exists v, literal_value (first :: rest) i = Some v.
Proof.
  intros Hq. unfold literal_value. rewrite Hq.
  destruct (isc first "n"), (isc first "t"), (isc first "f"); eexists; reflexivity.
Qed.

Lemma deliver_value (ps : list parse_state) (w : walk) (v : value) :
  literal w = None -> Forall2 waiting ps (frames w) ->
  exists w1, deliver v w = Some w1 /\ settled ps w1.
Proof.
  intros Hlit Hslot. unfold deliver, settled.
  inversion Hslot as [Hps Hfs | p f outer fs Hwait Houter Hps Hfs].
  - eexists. split; [reflexivity |]. cbn. split; [assumption | now exists v].
  - destruct p, f as [off ms [k |] | off items]; try contradiction.
    + eexists. split; [reflexivity |]. cbn. auto.
    + eexists. split; [reflexivity |]. cbn. auto.
Qed.

Lemma deliver_key (p : parse_state) (outer : list parse_state) (f : frame) (fs : list frame) (w : walk)
    (k : string) (off : Z) :
  literal w = None -> frames w = f :: fs -> expects_key p f -> Forall2 waiting outer fs ->
  exists w1, deliver (Str k off) w = Some w1 /\ settled (p :: outer) w1.
Proof.
  intros Hlit Hfs Hkey Houter. unfold deliver, settled. rewrite Hfs.
  destruct p, f as [o ms [k0 |] | o items]; try contradiction.
  eexists. split; [reflexivity |]. cbn. auto.
Qed.

Ltac is_char H := apply isc_eq in H; subst.

Lemma end_value (s s1 : scanner) (w0 : walk) (c : ascii) (i : Z) (op : opcode) :
  settled (parseState s) w0 -> err s = None -> endTop s = false ->
  do_stateEndValue s c = (s1, op) -> err s1 = None ->
  op <> scanContinue /\ op <> scanError /\ exists w1, structural w0 op c i = Some w1 /\ agree s1 w1.
Proof.
  intros [Hlit Hset] Herr Htop Hstep Herr1. unfold do_stateEndValue in Hstep.
  destruct (parseState s) as [| p outer] eqn:Hps.
  - destruct (frames w0) as [| f fs] eqn:Hfs; [| contradiction]. destruct Hset as [v Hv].
    unfold do_stateEndTop in Hstep. destruct (isSpace c); cbn [negb] in Hstep.
    + inversion Hstep; subst. repeat split; try discriminate.
      exists w0. split; [reflexivity |]. now apply agree_done with (v := v).
    + inversion Hstep; subst. discriminate Herr1.
  - destruct (frames w0) as [| f fs] eqn:Hfs; [contradiction |]. destruct Hset as [Hrecv Houter].
    destruct (isSpace c).
    { inversion Hstep; subst. repeat split; try discriminate.
      exists w0. split; [reflexivity |].
      now apply agree_received with (p := p) (outer := outer) (f := f) (fs := fs). }
    assert (Hpop : forall (v : value),
               exists w1, deliver v {| literal := None; frames := fs; top := top w0 |} = Some w1
                          /\ agree (popParseState s) w1).
    { intros v.
      destruct (deliver_value outer {| literal := None; frames := fs; top := top w0 |} v eq_refl Houter)
        as (w1 & Hw1 & Hlit1 & Hset1).
      exists w1. split; [exact Hw1 |]. unfold popParseState. cbn. rewrite Hps. cbn.
      destruct outer as [| p' outer'].
      - destruct (frames w1) eqn:Hf1; [| contradiction]. destruct Hset1 as [v1 Hv1].
        now apply agree_done with (v := v1).
      - destruct (frames w1) as [| f1 fs1] eqn:Hf1; [contradiction |]. destruct Hset1 as [Hr1 Ho1].
        now apply agree_received with (p := p') (outer := outer') (f := f1) (fs := fs1). }
    destruct p, f as [off ms [k |] | off items]; try contradiction.
    + destruct (isc c ":") eqn:Hc; [| inversion Hstep; subst; discriminate Herr1].
      inversion Hstep; subst. repeat split; try discriminate.
      exists w0. split; [reflexivity |].
      apply agree_value; cbn; try assumption; try reflexivity.
      rewrite Hfs. constructor; [exact I | assumption].
    + destruct (isc c ",") eqn:Hc.
      { inversion Hstep; subst. repeat split; try discriminate.
        exists w0. split; [reflexivity |].
        apply agree_key with (p := parseObjectKey) (outer := outer) (f := InObject off ms None) (fs := fs);
          cbn; auto. }
      destruct (isc c "}") eqn:Hc2; [| inversion Hstep; subst; discriminate Herr1].
      inversion Hstep; subst. repeat split; try discriminate.
      cbn [structural]. rewrite Hfs. apply Hpop.
    + destruct (isc c ",") eqn:Hc.
      { inversion Hstep; subst. repeat split; try discriminate.
        exists w0. split; [reflexivity |].
        apply agree_value; cbn; try assumption; try reflexivity.
        rewrite Hps, Hfs. constructor; [exact I | assumption]. }
      destruct (isc c "]") eqn:Hc2; [| inversion Hstep; subst; discriminate Herr1].
      inversion Hstep; subst. repeat split; try discriminate.
      cbn [structural]. rewrite Hfs. apply Hpop.
Qed.

Lemma react_settled (w : walk) (op : opcode) (c : ascii) (i : Z) :
  literal w = None -> op <> scanContinue -> op <> scanError ->
  react w op c i = structural w op c i.
Proof.
  intros Hlit Hc He. unfold react, end_literal. rewrite Hlit.
  destruct op; try reflexivity; contradiction.
Qed.

Lemma react_end (w w0 : walk) (item : list ascii) (v : value) (op : opcode) (c : ascii) (i : Z) :
  literal w = Some item -> literal_value (rev item) i = Some v ->
  deliver v {| literal := None; frames := frames w; top := top w |} = Some w0 ->
  op <> scanContinue -> op <> scanError ->
  react w op c i = structural w0 op c i.
Proof.
  intros Hlit Hv Hd Hc He. unfold react, end_literal. rewrite Hlit, Hv, Hd.
  destruct op; try reflexivity; contradiction.
Qed.

Lemma pushed (s s1 : scanner) (c : ascii) (p : parse_state) (ok op : opcode) :
  pushParseState s c p ok = (s1, op) -> err s1 = None -> err s = None ->
  op = ok /\ step s1 = step s /\ endTop s1 = endTop s /\ parseState s1 = p :: parseState s.
Proof.
  unfold pushParseState. intros H Herr1 Herr.
  destruct (_ <=? maxNestingDepth); inversion H; subst; cbn in *; [auto | discriminate].
Qed.

(** The scanner meets the first byte of a value. *)
Lemma begin_value (s s1 : scanner) (w : walk) (c : ascii) (i : Z) (op : opcode) :
  literal w = None -> Forall2 waiting (parseState s) (frames w) ->
  err s = None -> endTop s = false -> isSpace c = false ->
  do_stateBeginValue s c = (s1, op) -> err s1 = None ->
  exists w1, react w op c i = Some w1 /\ agree s1 w1.
Proof.
  intros Hlit Hslot Herr Htop Hsp Hstep Herr1. unfold do_stateBeginValue in Hstep. rewrite Hsp in Hstep.
  destruct (isc c "{") eqn:Hobj.
  { destruct (pushed _ _ _ _ _ _ Hstep Herr1 Herr) as (-> & Hst & Het & Hps).
    rewrite react_settled by (assumption || discriminate). eexists. split; [reflexivity |].
    apply agree_key with (p := parseObjectKey) (outer := parseState s) (f := InObject (i + 1) [] None)
                         (fs := frames w); cbn; auto. rewrite Het. exact Htop. }
  destruct (isc c "[") eqn:Harr.
  { destruct (pushed _ _ _ _ _ _ Hstep Herr1 Herr) as (-> & Hst & Het & Hps).
    rewrite react_settled by (assumption || discriminate). eexists. split; [reflexivity |].
    apply agree_array with (p := parseArrayValue) (outer := parseState s) (f := InArray (i + 1) [])
                           (fs := frames w); cbn; auto. rewrite Het. exact Htop. }
  destruct (isc c quote) eqn:Hq.
  { inversion Hstep; subst. is_char Hq.
    rewrite react_settled by (assumption || discriminate). eexists. split; [reflexivity |].
    apply agree_string with (item := [quote]) (rest := []); cbn; auto.
    exists []. split; [constructor | reflexivity]. }
  assert (Hplain : forall f, in_plain_literal f = true -> (set_step s f, scanBeginLiteral) = (s1, op) ->
                             exists w1, react w op c i = Some w1 /\ agree s1 w1).
  { intros f Hf Heq. inversion Heq; subst.
    rewrite react_settled by (assumption || discriminate). eexists. split; [reflexivity |].
    apply agree_literal with (item := [c]) (first := c) (rest := []); cbn; auto. }
  repeat match type of Hstep with
         | (if ?b then _ else _) = _ => destruct b; [eapply Hplain; [| exact Hstep]; reflexivity |]
         end.
  inversion Hstep; subst. discriminate Herr1.
Qed.

(** The scanner meets the first byte of an object key. *)
Lemma begin_string (s s1 : scanner) (w : walk) (c : ascii) (i : Z) (op : opcode)
    (p : parse_state) (outer : list parse_state) (f : frame) (fs : list frame) :
  literal w = None -> parseState s = p :: outer -> frames w = f :: fs ->
  expects_key p f -> Forall2 waiting outer fs ->
  err s = None -> endTop s = false -> isSpace c = false ->
  do_stateBeginString s c = (s1, op) -> err s1 = None ->
  exists w1, react w op c i = Some w1 /\ agree s1 w1.
Proof.
  intros Hlit Hps Hfs Hkey Houter Herr Htop Hsp Hstep Herr1.
  unfold do_stateBeginString in Hstep. rewrite Hsp in Hstep.
  destruct (isc c quote) eqn:Hq; [| inversion Hstep; subst; discriminate Herr1].
  inversion Hstep; subst. is_char Hq.
  rewrite react_settled by (assumption || discriminate). eexists. split; [reflexivity |].
  apply agree_string with (item := [quote]) (rest := []); cbn; auto.
  - exists []. split; [constructor | reflexivity].
  - right. exists p, outer, f, fs. auto.
Qed.

(** A literal that is complete ends at the byte that follows it. *)
Lemma end_literal_value (s s1 : scanner) (w : walk) (c : ascii) (i : Z) (op : opcode)
    (item : list ascii) (v : value) :
  literal w = Some item -> literal_value (rev item) i = Some v ->
  Forall2 waiting (parseState s) (frames w) ->
  err s = None -> endTop s = false ->
  do_stateEndValue s c = (s1, op) -> err s1 = None ->
  exists w1, react w op c i = Some w1 /\ agree s1 w1.
Proof.
  intros Hlit Hv Hslot Herr Htop Hstep Herr1.
  destruct (deliver_value (parseState s) {| literal := None; frames := frames w; top := top w |} v
              eq_refl Hslot) as (w0 & Hd & Hset).
  destruct (end_value s s1 w0 c i op Hset Herr Htop Hstep Herr1) as (Hc & He & w1 & Hw1 & Hagree).
  exists w1. split; [| exact Hagree].
  now rewrite (react_end w w0 item v op c i Hlit Hv Hd Hc He).
Qed.

Lemma end_literal_key (s s1 : scanner) (w : walk) (c : ascii) (i : Z) (op : opcode)
    (item : list ascii) (k : string) (p : parse_state) (outer : list parse_state) (f : frame) (fs : list frame) :
  literal w = Some item -> literal_value (rev item) i = Some (Str k i) ->
  parseState s = p :: outer -> frames w = f :: fs -> expects_key p f -> Forall2 waiting outer fs ->
  err s = None -> endTop s = false ->
  do_stateEndValue s c = (s1, op) -> err s1 = None ->
  exists w1, react w op c i = Some w1 /\ agree s1 w1.
Proof.
  intros Hlit Hv Hps Hfs Hkey Houter Herr Htop Hstep Herr1.
  destruct (deliver_key p outer f fs {| literal := None; frames := frames w; top := top w |} k i
              eq_refl Hfs Hkey Houter) as (w0 & Hd & Hset).
  rewrite <- Hps in Hset.
  destruct (end_value s s1 w0 c i op Hset Herr Htop Hstep Herr1) as (Hc & He & w1 & Hw1 & Hagree).
  exists w1. split; [| exact Hagree].
  now rewrite (react_end w w0 item (Str k i) op c i Hlit Hv Hd Hc He).
Qed.

Lemma react_continue (w : walk) (item : list ascii) (c : ascii) (i : Z) :
  literal w = Some item ->
  react w scanContinue c i = Some {| literal := Some (c :: item); frames := frames w; top := top w |}.
Proof.
  intros Hlit. unfold react. now rewrite Hlit.
Qed.

Lemma agree_bump (s : scanner) (w : walk) : agree s w -> agree (bump s) w.
Proof.
  intros []; [eapply agree_value | eapply agree_array | eapply agree_key | eapply agree_string
              | eapply agree_literal | eapply agree_received | eapply agree_done]; cbn; eassumption.
Qed.

(** One more byte of a number, [true], [false] or [null]. *)
Lemma plain_literal_grows (s1 : scanner) (w : walk) (c : ascii) (i : Z)
    (item : list ascii) (first : ascii) (rest : list ascii) :
  literal w = Some item -> rev item = first :: rest -> isc first quote = false ->
  Forall2 waiting (parseState s1) (frames w) -> err s1 = None -> endTop s1 = false ->
  in_plain_literal (step s1) = true ->
  exists w1, react w scanContinue c i = Some w1 /\ agree s1 w1.
Proof.
  intros Hlit Hrev Hq Hslot Herr Htop Hf.
  rewrite (react_continue w item c i Hlit). eexists. split; [reflexivity |].
  apply agree_literal with (item := c :: item) (first := first) (rest := rest ++ [c]); cbn; auto.
  now rewrite Hrev.
Qed.

(** One more byte of a string literal. *)
Lemma string_grows (s1 : scanner) (w : walk) (c : ascii) (i : Z) (item rest : list ascii) :
  literal w = Some item -> rev item = quote :: rest ->
  (Forall2 waiting (parseState s1) (frames w)
   \/ exists p outer f fs, parseState s1 = p :: outer /\ frames w = f :: fs
                           /\ expects_key p f /\ Forall2 waiting outer fs) ->
  err s1 = None -> endTop s1 = false ->
  string_progress (step s1) (rest ++ [c]) ->
  exists w1, react w scanContinue c i = Some w1 /\ agree s1 w1.
Proof.
  intros Hlit Hrev Hslot Herr Htop Hprog.
  rewrite (react_continue w item c i Hlit). eexists. split; [reflexivity |].
  apply agree_string with (item := c :: item) (rest := rest ++ [c]); cbn; auto.
  now rewrite Hrev.
Qed.

Ltac failed Hstep Herr1 := inversion Hstep; subst; discriminate Herr1.

Lemma agree_step (s s1 : scanner) (w : walk) (c : ascii) (i : Z) (op : opcode) :
  agree s w -> apply s c = (s1, op) -> err s1 = None ->
  exists w1, react w op c i = Some w1 /\ agree s1 w1.
Proof.
  intros Hagree Hstep Herr1. unfold apply in Hstep.
  destruct Hagree as
    [Herr Htop Hlit Hst Hslot
    | Herr Htop Hlit Hst p outer f fs Hps Hfs Hp Hwait Houter
    | Herr Htop Hlit Hst p outer f fs Hps Hfs Hkey Houter
    | Herr Htop item rest Hlit Hrev Hprog Hslot
    | Herr Htop item first rest Hlit Hrev Hq Hst Hslot
    | Herr Htop Hlit Hst p outer f fs Hps Hfs Hrecv Houter
    | Herr Htop Hlit Hst Hps Hfs v Hv].
  - (* a value is expected *)
    rewrite Hst in Hstep. destruct (isSpace c) eqn:Hsp.
    + unfold do_stateBeginValue in Hstep. rewrite Hsp in Hstep. inversion Hstep; subst.
      rewrite react_settled by (assumption || discriminate). eexists. split; [reflexivity |].
      now apply agree_value.
    + now apply (begin_value s s1 w c i op).
  - (* an array has just been opened *)
    rewrite Hst in Hstep. unfold do_stateBeginValueOrEmpty in Hstep. subst p.
    assert (Hslot : Forall2 waiting (parseState s) (frames w))
      by (rewrite Hps, Hfs; now constructor).
    destruct (isSpace c) eqn:Hsp.
    + inversion Hstep; subst.
      rewrite react_settled by (assumption || discriminate). eexists. split; [reflexivity |].
      now apply agree_array with (p := parseArrayValue) (outer := outer) (f := f) (fs := fs).
    + destruct (isc c "]").
      * assert (Hset : settled (parseState s) w).
        { split; [assumption |]. rewrite Hps, Hfs. split; [| assumption].
          destruct f as [? ? [? |] | ? ?]; try contradiction. exact I. }
        destruct (end_value s s1 w c i op Hset Herr Htop Hstep Herr1) as (Hc & He & w1 & Hw1 & Hag).
        exists w1. split; [| exact Hag]. now rewrite react_settled.
      * now apply (begin_value s s1 w c i op).
  - (* an object key is expected *)
    assert (Hbegin : do_stateBeginString s c = (s1, op) ->
                     exists w1, react w op c i = Some w1 /\ agree s1 w1).
    { intros Hb. destruct (isSpace c) eqn:Hsp.
      - unfold do_stateBeginString in Hb. rewrite Hsp in Hb. inversion Hb; subst.
        rewrite react_settled by (assumption || discriminate). eexists. split; [reflexivity |].
        apply agree_key with (p := p) (outer := outer) (f := f) (fs := fs); auto.
      - now apply (begin_string s s1 w c i op p outer f fs). }
    destruct Hst as [Hst | Hst]; rewrite Hst in Hstep; [| now apply Hbegin].
    unfold do_stateBeginStringOrEmpty in Hstep.
    destruct (isSpace c) eqn:Hsp.
    + inversion Hstep; subst.
      rewrite react_settled by (assumption || discriminate). eexists. split; [reflexivity |].
      apply agree_key with (p := p) (outer := outer) (f := f) (fs := fs); auto.
    + destruct (isc c "}"); [| now apply Hbegin].
      rewrite Hps in Hstep. cbn [tl] in Hstep.
      assert (Hset : settled (parseState (set_parseState s (parseObjectValue :: outer))) w).
      { split; [assumption |]. cbn. rewrite Hfs. split; [| assumption].
        destruct p, f as [? ? [? |] | ? ?]; try contradiction. exact I. }
      destruct (end_value _ s1 w c i op Hset Herr Htop Hstep Herr1) as (Hc & He & w1 & Hw1 & Hag).
      exists w1. split; [| exact Hag]. now rewrite react_settled.
  - (* inside a string literal *)
    destruct Hprog as (done & Hdone & Hshape).
    destruct (step s) eqn:Hst; try contradiction.
    + (* the closing quote has been read *)
      subst rest.
      destruct (literal_value_of_string done i Hdone) as [k Hk]. rewrite <- Hrev in Hk.
      destruct Hslot as [Hslot | (p & outer & f & fs & Hps & Hfs & Hkey & Houter)].
      * now apply (end_literal_value s s1 w c i op item (Str k i)).
      * now apply (end_literal_key s s1 w c i op item k p outer f fs).
    + (* stateInString *)
      subst rest. unfold do_stateInString in Hstep.
      destruct (isc c quote) eqn:Hcq.
      { is_char Hcq. inversion Hstep; subst. apply (string_grows _ w quote i item done); cbn; auto.
        exists done. split; [assumption | reflexivity]. }
      destruct (isc c backslash) eqn:Hcb.
      { is_char Hcb. inversion Hstep; subst. apply (string_grows _ w backslash i item done); cbn; auto.
        exists done. split; [assumption | reflexivity]. }
      destruct (byte c <? 32) eqn:Hctl; [failed Hstep Herr1 |].
      inversion Hstep; subst. apply (string_grows _ w c i item done); auto.
      rewrite Hst. exists (done ++ [c]). split; [| reflexivity].
      apply string_body_app; [assumption |]. constructor; [repeat split; assumption | constructor].
    + (* stateInStringEsc *)
      subst rest. unfold do_stateInStringEsc in Hstep.
      destruct (isc c "b" || isc c "f" || isc c "n" || isc c "r" || isc c "t" || isc c backslash
                || isc c "/" || isc c quote) eqn:Hesc.
      { inversion Hstep; subst. apply (string_grows _ w c i item (done ++ [backslash])); cbn; auto.
        exists (done ++ [backslash; c]). split; [| now rewrite <- app_assoc].
        apply string_body_app; [assumption |]. apply body_escape; [exact Hesc | constructor]. }
      destruct (isc c "u") eqn:Hu; [| failed Hstep Herr1].
      is_char Hu. inversion Hstep; subst.
      apply (string_grows _ w "u"%char i item (done ++ [backslash])); cbn; auto.
      exists done. split; [assumption | now rewrite <- app_assoc].
    + (* stateInStringEscU *)
      subst rest. unfold inStringEscU in Hstep.
      destruct (isHex c) eqn:Hh; [| failed Hstep Herr1].
      inversion Hstep; subst. apply (string_grows _ w c i item (done ++ [backslash; "u"%char])); cbn; auto.
      exists done. split; [assumption |]. exists c. split; [assumption | now rewrite <- app_assoc].
    + destruct Hshape as (h1 & H1 & ->). unfold inStringEscU in Hstep.
      destruct (isHex c) eqn:Hh; [| failed Hstep Herr1].
      inversion Hstep; subst.
      apply (string_grows _ w c i item (done ++ [backslash; "u"%char; h1])); cbn; auto.
      exists done. split; [assumption |]. exists h1, c. repeat split; try assumption.
      now rewrite <- app_assoc.
    + destruct Hshape as (h1 & h2 & H1 & H2 & ->). unfold inStringEscU in Hstep.
      destruct (isHex c) eqn:Hh; [| failed Hstep Herr1].
      inversion Hstep; subst.
      apply (string_grows _ w c i item (done ++ [backslash; "u"%char; h1; h2])); cbn; auto.
      exists done. split; [assumption |]. exists h1, h2, c. repeat split; try assumption.
      now rewrite <- app_assoc.
    + destruct Hshape as (h1 & h2 & h3 & H1 & H2 & H3 & ->). unfold inStringEscU in Hstep.
      destruct (isHex c) eqn:Hh; [| failed Hstep Herr1].
      inversion Hstep; subst.
      apply (string_grows _ w c i item (done ++ [backslash; "u"%char; h1; h2; h3])); cbn; auto.
      exists (done ++ [backslash; "u"%char; h1; h2; h3; c]). split; [| now rewrite <- app_assoc].
      apply string_body_app; [assumption |]. apply body_hex; try assumption. constructor.
  - (* inside a number, true, false or null *)
    destruct (literal_value_of_plain first rest i Hq) as [v Hv]. rewrite <- Hrev in Hv.
    assert (Hend : do_stateEndValue s c = (s1, op) ->
                   exists w1, react w op c i = Some w1 /\ agree s1 w1)
      by (intros He; now apply (end_literal_value s s1 w c i op item v)).
    assert (Hcont : forall s', in_plain_literal (step s') = true ->
                               parseState s' = parseState s -> err s' = None -> endTop s' = false ->
                               (s', scanContinue) = (s1, op) ->
                               exists w1, react w op c i = Some w1 /\ agree s1 w1).
    { intros s' Hs' Hps' Herr' Htop' He. inversion He; subst.
      apply (plain_literal_grows _ w c i item first rest); auto.
      now rewrite Hps'. }
    destruct (step s) eqn:Hstate; try discriminate Hst;
      unfold do_stateNeg, do_state1, do_state0, do_stateDot, do_stateDot0, do_stateE, do_stateESign,
             do_stateE0, expect in Hstep;
      repeat match type of Hstep with
             | (if ?b then _ else _) = _ => destruct b
             end;
      first [ now apply Hend
            | refine (Hcont _ _ _ _ _ Hstep); cbn; try rewrite Hstate; now auto
            | failed Hstep Herr1 ].
  - (* a value has just been delivered *)
    rewrite Hst in Hstep.
    assert (Hset : settled (parseState s) w) by (split; [assumption |]; rewrite Hps, Hfs; auto).
    destruct (end_value s s1 w c i op Hset Herr Htop Hstep Herr1) as (Hc & He & w1 & Hw1 & Hag).
    exists w1. split; [| exact Hag]. now rewrite react_settled.
  - (* the top-level value is complete *)
    rewrite Hst in Hstep. unfold do_stateEndTop in Hstep.
    destruct (isSpace c); cbn [negb] in Hstep; [| failed Hstep Herr1].
    inversion Hstep; subst.
    rewrite react_settled by (assumption || discriminate). eexists. split; [reflexivity |].
    now apply agree_done with (v := v).
Qed.

Ltac scan_cases H :=
  unfold apply in H;
  unfold do_stateBeginValueOrEmpty, do_stateBeginStringOrEmpty, do_state1, do_stateE in H;
  unfold do_state0, do_stateDot0, do_stateE0, do_stateESign, do_stateBeginValue, do_stateBeginString,
         do_stateInString, do_stateInStringEsc, inStringEscU, do_stateNeg, do_stateDot, expect in H;
  unfold do_stateEndValue in H;
  unfold do_stateEndTop, pushParseState, popParseState, error_ in H;
  repeat match type of H with
         | context [match ?x with _ => _ end] => destruct x
         end.

(** Once the scanner holds an error it is in [stateError]. *)
Lemma err_sticks (s s1 : scanner) (c : ascii) (op : opcode) (e : error) :
  apply s c = (s1, op) -> err s = None -> err s1 = Some e -> step s1 = stateError.
Proof.
  intros H Herr Herr1. scan_cases H; inversion H; subst; cbn in *; try congruence; try reflexivity.
Qed.

Lemma dead (s : scanner) (e : error) (data : list ascii) :
  step s = stateError -> err s = Some e -> checkValid_from data s = Some e.
Proof.
  intros Hst Herr. destruct data as [| c rest]; cbn.
  - unfold eof. now rewrite Herr.
  - unfold apply. cbn. now rewrite Hst.
Qed.

(** What the scanner can answer to a space. *)
Lemma space_step (s s1 : scanner) (op : opcode) :
  apply s " " = (s1, op) -> err s = None -> endTop s = false -> endTop s1 = true ->
  err s1 = None /\ (op = scanContinue \/ op = scanSkipSpace \/ op = scanEnd).
Proof.
  intros H Herr Htop Htop1. unfold apply in H.
  unfold do_stateBeginValueOrEmpty, do_stateBeginStringOrEmpty, do_state1, do_stateE in H.
  unfold do_state0, do_stateDot0, do_stateE0, do_stateESign, do_stateBeginValue, do_stateBeginString,
         do_stateInString, do_stateInStringEsc, inStringEscU, do_stateNeg, do_stateDot, expect in H.
  unfold do_stateEndValue in H.
  unfold do_stateEndTop, pushParseState, popParseState, error_ in H.
  change (isSpace " ") with true in H.
  destruct (step s); cbn in H;
    repeat match type of H with
           | context [match ?x with _ => _ end] => destruct x
           end;
    inversion H; subst; cbn in *; try congruence; auto.
Qed.

Lemma agree_err (s : scanner) (w : walk) : agree s w -> err s = None.
Proof.
  now intros [].
Qed.

Lemma agree_endTop (s : scanner) (w : walk) :
  agree s w -> endTop s = true ->
  literal w = None /\ frames w = [] /\ exists v, top w = Some v.
Proof.
  intros [] Htop; try congruence. eauto.
Qed.

(** At the end of an input the scanner accepts, the walk holds the
    top-level value. *)
Lemma finish (s : scanner) (w : walk) (i : Z) :
  agree s w -> snd (eof s) <> scanError ->
  exists w1 v, end_literal w i = Some w1 /\ frames w1 = [] /\ top w1 = Some v.
Proof.
  intros Hagree Heof. unfold eof in Heof. rewrite (agree_err s w Hagree) in Heof.
  destruct (endTop s) eqn:Htop.
  - destruct (agree_endTop s w Hagree Htop) as (Hlit & Hfs & v & Hv).
    exists w, v. unfold end_literal. now rewrite Hlit.
  - destruct (apply s " ") as [s1 op] eqn:Hstep. cbn [fst] in Heof.
    destruct (endTop s1) eqn:Htop1.
    2:{ destruct (err s1); cbn in Heof; congruence. }
    destruct (space_step s s1 op Hstep (agree_err s w Hagree) Htop Htop1) as (Herr1 & Hop).
    destruct (agree_step s s1 w " " i op Hagree Hstep Herr1) as (w1 & Hreact & Hagree1).
    destruct (agree_endTop s1 w1 Hagree1 Htop1) as (Hlit1 & Hfs1 & v & Hv).
    unfold react in Hreact.
    destruct Hop as [-> | [-> | ->]].
    + destruct (literal w); [| discriminate]. inversion Hreact; subst. discriminate Hlit1.
    + destruct (end_literal w i) as [w0 |]; [| discriminate]. cbn in Hreact. inversion Hreact; subst.
      now exists w1, v.
    + destruct (end_literal w i) as [w0 |]; [| discriminate]. cbn in Hreact. inversion Hreact; subst.
      now exists w1, v.
Qed.

Lemma checkValid_end (s : scanner) : checkValid_from [] s = None -> snd (eof s) <> scanError.
Proof.
  cbn. unfold eof. destruct (err s) eqn:Herr; cbn; [congruence |].
  destruct (endTop s); cbn; [discriminate |].
  destruct (endTop (fst (apply s " "))); cbn; [discriminate |].
  destruct (err (fst (apply s " "))) eqn:Herr1; cbn; congruence.
Qed.

(** On an input the scanner accepts, the walk that follows the scanner ends
    with a value. *)
Lemma parse_from_agrees (data : list ascii) :
  forall (i : Z) (s : scanner) (w : walk),
    agree s w -> checkValid_from data s = None -> exists v, parse_from data i s w = Some v.
Proof.
  induction data as [| c rest IH]; intros i s w Hagree Hvalid.
  - destruct (finish s w i Hagree (checkValid_end s Hvalid)) as (w1 & v & Hend & Hfs & Hv).
    exists v. cbn [parse_from].
    destruct (snd (eof s)) eqn:Heof; try (rewrite Hend, Hfs; exact Hv).
    exfalso. apply (checkValid_end s Hvalid). exact Heof.
  - cbn [checkValid_from parse_from] in *.
    destruct (apply (bump s) c) as [s1 op] eqn:Hstep.
    pose proof (agree_bump s w Hagree) as Hagree'.
    destruct (err s1) as [e |] eqn:Herr1.
    + exfalso. pose proof (err_sticks _ _ _ _ e Hstep (agree_err _ _ Hagree') Herr1) as Hdead.
      destruct op; try congruence; rewrite (dead s1 e rest Hdead Herr1) in Hvalid; discriminate.
    + destruct (agree_step (bump s) s1 w c i op Hagree' Hstep Herr1) as (w1 & Hreact & Hagree1).
      rewrite Hreact. apply IH; [exact Hagree1 |].
      destruct op; try exact Hvalid. cbn in Hreact. discriminate.
Qed.

Lemma agree_start : agree reset start.
Proof.
  apply agree_value; try reflexivity. constructor.
Qed.

(** [json.Unmarshal] into a [User] returns, for every input. *)
Lemma Unmarshal_returns (data : string) (user : User) :
  exists r, Unmarshal data user = Returned r.
Proof.
  unfold Unmarshal. destruct (checkValid data) as [e |] eqn:Hvalid; [eexists; reflexivity |].
  destruct (parse_from_agrees (list_ascii_of_string data) 0 reset start agree_start Hvalid) as [v Hv].
  unfold parse. rewrite Hv. eexists; reflexivity.
Qed.

End json_facts.

(** ** Running programs *)

Lemma exec_bind {E : Type -> Type} {S R T : Type} (h : handler E S) (p : prog E R) (f : R -> prog E T) (s : S) :
  exec h (bind p f) s =
  {| result := result (exec h (f (result (exec h p s))) (final (exec h p s)));
     final := final (exec h (f (result (exec h p s))) (final (exec h p s)));
     calls := calls (exec h p s) ++ calls (exec h (f (result (exec h p s))) (final (exec h p s))) |}.
Proof.
  revert s. induction p as [r | X e k IH]; intros s; simpl.
  - destruct (exec h (f r) s); reflexivity.
  - destruct (h X e s) as [x s1]. rewrite IH. reflexivity.
Qed.

Lemma exec_trigger {E : Type -> Type} {S X : Type} (h : handler E S) (e : E X) (s : S) :
  exec h (trigger e) s =
  {| result := fst (h X e s); final := snd (h X e s); calls := [Call e] |}.
Proof.
  unfold trigger. simpl. destruct (h X e s); reflexivity.
Qed.

(** A deferred call runs last, on the state the body leaves, and does not
    change the results. *)
Lemma exec_defer {E : Type -> Type} {S X R : Type} (h : handler E S) (e : E X) (body : prog E R) (s : S) :
  exec h (defer (trigger e) body) s =
  {| result := result (exec h body s);
     final := snd (h X e (final (exec h body s)));
     calls := calls (exec h body s) ++ [Call e] |}.
Proof.
  unfold defer. rewrite exec_bind. rewrite exec_bind. rewrite exec_trigger. reflexivity.
Qed.

Lemma append_empty (s : string) : (s ++ EmptyString)%string = s.
Proof.
  induction s as [| c s IH]; simpl; [reflexivity | now rewrite IH].
Qed.

(** ** Formatting at the call sites *)

Lemma Sprintf_name (baseName suffix : string) :
  fmt.Sprintf "%s-%s" [fmt.Str baseName; fmt.Str suffix] = (baseName ++ "-" ++ suffix)%string.
Proof.
  unfold fmt.Sprintf. simpl. now rewrite append_empty.
Qed.

Lemma Errorf_fetch (e : error) :
  fmt.Errorf "failed to fetch user: %w" [fmt.Err e] = wrapError ("failed to fetch user: " ++ Error e) e.
Proof.
  unfold fmt.Errorf, fmt.Sprintf. simpl. now rewrite append_empty.
Qed.

Lemma Errorf_read (e : error) :
  fmt.Errorf "failed to read response: %w" [fmt.Err e] = wrapError ("failed to read response: " ++ Error e) e.
Proof.
  unfold fmt.Errorf, fmt.Sprintf. simpl. now rewrite append_empty.
Qed.

Lemma Errorf_parse (e : error) :
  fmt.Errorf "failed to parse user: %w" [fmt.Err e] = wrapError ("failed to parse user: " ++ Error e) e.
Proof.
  unfold fmt.Errorf, fmt.Sprintf. simpl. now rewrite append_empty.
Qed.

Lemma Errorf_status (code : Z) :
  fmt.Errorf "unexpected status code: %d" [fmt.Int code] = errorString ("unexpected status code: " ++ itoa code).
Proof.
  unfold fmt.Errorf, fmt.Sprintf. simpl. now rewrite append_empty.
Qed.

(** ** Runs of [GetUser], branch by branch *)

Section GetUserRuns.

Context {C B S : Type} (h : handler (HTTPClient C B) S).

Lemma exec_GetUser_error (client : C) (id : Z) (s s1 : S) (resp : option (Response B)) (e : error) :
  h _ (Get client (user_url id)) s = ((resp, Some e), s1) ->
  exec h (GetUser client id) s =
  {| result := Returned (zero, Some (wrapError ("failed to fetch user: " ++ Error e) e));
     final := s1;
     calls := [Call (Get client (user_url id))] |}.
Proof.
  intros Hget. unfold GetUser. rewrite exec_bind, exec_trigger, Hget. simpl.
  now rewrite Errorf_fetch.
Qed.

Lemma exec_GetUser_response (client : C) (id : Z) (s s1 : S) (resp : Response B) (b : B) :
  h _ (Get client (user_url id)) s = ((Some resp, None), s1) ->
  Body resp = Some b ->
  exec h (GetUser client id) s =
  {| result := result (exec h (after_defer resp b) s1);
     final := snd (h _ (Close b) (final (exec h (after_defer resp b) s1)));
     calls := Call (Get client (user_url id)) :: calls (exec h (after_defer resp b) s1) ++ [Call (Close b)] |}.
Proof.
  intros Hget Hbody. unfold GetUser. rewrite exec_bind, exec_trigger, Hget. simpl.
  rewrite Hbody, exec_defer. reflexivity.
Qed.

Lemma exec_GetUser_nil (client : C) (id : Z) (s s1 : S) (resp : option (Response B)) :
  h _ (Get client (user_url id)) s = ((resp, None), s1) ->
  match resp with Some r => Body r = None | None => True end ->
  result (exec h (GetUser client id) s) = Panicked.
Proof.
  intros Hget Hnil. unfold GetUser. rewrite exec_bind, exec_trigger, Hget. simpl.
  destruct resp as [r |]; [rewrite Hnil |]; reflexivity.
Qed.

Lemma exec_after_defer_status (resp : Response B) (b : B) (s : S) :
  StatusCode resp <> StatusOK ->
  exec h (after_defer (C := C) resp b) s =
  {| result := Returned (zero, Some (errorString ("unexpected status code: " ++ itoa (StatusCode resp))));
     final := s;
     calls := [] |}.
Proof.
  intros Hcode. unfold after_defer.
  destruct (StatusCode resp =? StatusOK) eqn:E; [apply Z.eqb_eq in E; contradiction |].
  simpl. now rewrite Errorf_status.
Qed.

Lemma exec_after_defer_read (resp : Response B) (b : B) (s : S) :
  StatusCode resp = StatusOK ->
  exec h (after_defer (C := C) resp b) s =
  {| result :=
       match snd (fst (h _ (ReadAll b) s)) with
       | Some e => Returned (zero, Some (wrapError ("failed to read response: " ++ Error e) e))
       | None =>
           match json.Unmarshal (fst (fst (h _ (ReadAll b) s))) zero with
           | Returned (_, Some e) => Returned (zero, Some (wrapError ("failed to parse user: " ++ Error e) e))
           | Returned (user, None) => Returned (user, None)
           | Panicked => Panicked
           end
       end;
     final := snd (h _ (ReadAll b) s);
     calls := [Call (ReadAll b)] |}.
Proof.
  intros Hcode. unfold after_defer. rewrite Hcode. simpl negb. cbv iota.
  rewrite exec_bind, exec_trigger. cbn [result final calls app].
  destruct (h _ (ReadAll b) s) as [[data [e |]] s2]; cbn [fst snd].
  - simpl. now rewrite Errorf_read.
  - destruct (json.Unmarshal data zero) as [[user [e |]] |]; simpl; [now rewrite Errorf_parse | reflexivity ..].
Qed.

(** Whatever the answers, a run of what follows the [defer] closes
    nothing itself. *)
Lemma closes_after_defer (resp : Response B) (b : B) (s : S) :
  closes (calls (exec h (after_defer (C := C) resp b) s)) = [].
Proof.
  destruct (Z.eq_dec (StatusCode resp) StatusOK) as [Hcode | Hcode].
  - now rewrite exec_after_defer_read.
  - now rewrite exec_after_defer_status.
Qed.

End GetUserRuns.

Lemma closes_app {C B : Type} (xs ys : list (call (HTTPClient C B))) :
  closes (xs ++ ys) = closes xs ++ closes ys.
Proof.
  induction xs as [| [X e] xs IH]; simpl; [reflexivity |].
  destruct e; simpl; now rewrite IH.
Qed.

(** ** The decision sequence of [GetUser] *)



(** ** Names *)

(** C2: for every base name (the empty one too) and every string the
    injected generator returns, [GenerateName] returns the base name, one
    hyphen and that string; the generator is asked once.  With the double
    fixing the string, [("my-pod", "abc12")] gives ["my-pod-abc12"] and
    [("nginx-deployment", "01234")] gives ["nginx-deployment-01234"].  The
    consumer has no failing path: its result is a string, for every
    generator. *)
Theorem GenerateName_concatenates :
  (forall (G S : Type) (h : handler (rng.StringGenerator G) S) (ng : rng.NameGenerator G)
          (baseName : string) (s : S),
      result (exec h (rng.GenerateName ng baseName) s)
      = (baseName ++ "-" ++ fst (h _ (rng.Generate (rng.generator ng)) s))%string
      /\ calls (exec h (rng.GenerateName ng baseName) s) = [Call (rng.Generate (rng.generator ng))])
  /\ (forall (S : Type) (h : handler (rng.StringGenerator unit) S) (s : S),
      result (exec h (rng.GenerateName {| rng.generator := tt |} EmptyString) s)
      = String "-" (fst (h _ (rng.Generate tt) s)))
  /\ result (exec rng.mock (rng.GenerateName {| rng.generator := {| rng.value := "abc12" |} |} "my-pod") tt)
     = "my-pod-abc12"%string
  /\ result (exec rng.mock
               (rng.GenerateName {| rng.generator := {| rng.value := "01234" |} |} "nginx-deployment") tt)
     = "nginx-deployment-01234"%string.
Proof.
  assert (Hrun : forall (G S : Type) (h : handler (rng.StringGenerator G) S) (ng : rng.NameGenerator G)
                        (baseName : string) (s : S),
             result (exec h (rng.GenerateName ng baseName) s)
             = (baseName ++ "-" ++ fst (h _ (rng.Generate (rng.generator ng)) s))%string
             /\ calls (exec h (rng.GenerateName ng baseName) s) = [Call (rng.Generate (rng.generator ng))]).
  { intros G S h ng baseName s. unfold rng.GenerateName.
    rewrite exec_bind, exec_trigger. cbn [result final calls exec app].
    rewrite Sprintf_name. split; reflexivity. }
  split; [exact Hrun |]. split.
  - intros S h s. now rewrite (proj1 (Hrun unit S h {| rng.generator := tt |} EmptyString s)).
  - split; reflexivity.
Qed.

(** ** Work that waits *)

Lemma exec_DoWork {S St : Type} (h : handler (sleeper.Sleeper S) St) (w : sleeper.Worker S) (st : St) :
  exec h (sleeper.DoWork w) st =
  {| result := [];
     final := snd (h _ (sleeper.Println "Work complete!")
                     (snd (h _ (sleeper.Sleep (sleeper.sleeper w) (2 * sleeper.Second))
                             (snd (h _ (sleeper.Println "Starting work...") st)))));
     calls := [Call (sleeper.Println "Starting work...");
               Call (sleeper.Sleep (sleeper.sleeper w) (2 * sleeper.Second));
               Call (sleeper.Println "Work complete!")] |}.
Proof.
  unfold sleeper.DoWork. now rewrite !exec_bind, !exec_trigger.
Qed.

Lemma nth_error_record_duration (ms : list sleeper.mockSleeper) (p : nat) (d : sleeper.Duration)
    (m : sleeper.mockSleeper) :
  nth_error ms p = Some m ->
  nth_error (sleeper.record_duration ms p d) p = Some {| sleeper.duration := d |}.
Proof.
  revert p. induction ms as [| m0 ms IH]; intros [| p] H; simpl in *; try discriminate.
  - reflexivity.
  - now apply IH.
Qed.

(** C3: for every [Sleeper] capability, [DoWork] calls its [Sleep] exactly
    once, with a duration of exactly 2 seconds (2 000 000 000 ns); run with
    the recording double, the double ends up holding 2 seconds. *)
Theorem DoWork_sleeps_two_seconds_once :
  (forall (S St : Type) (h : handler (sleeper.Sleeper S) St) (w : sleeper.Worker S) (st : St),
      sleeper.sleeps (calls (exec h (sleeper.DoWork w) st)) = [(sleeper.sleeper w, 2000000000)])
  /\ (forall (out : list string) (ms : list sleeper.mockSleeper) (p : nat) (m : sleeper.mockSleeper),
      nth_error ms p = Some m ->
      nth_error (sleeper.sleepers
                   (final (exec sleeper.mock (sleeper.DoWork (sleeper.NewWorker p))
                             {| sleeper.stdout := out; sleeper.sleepers := ms |}))) p
      = Some {| sleeper.duration := 2 * sleeper.Second |}).
Proof.
  split.
  - intros S St h w st. now rewrite exec_DoWork.
  - intros out ms p m Hp. rewrite exec_DoWork. cbn.
    exact (nth_error_record_duration ms p _ m Hp).
Qed.

Lemma DoWork_sleeps_two_seconds_once_witness :
  nth_error [{| sleeper.duration := 0 |}] 0 = Some {| sleeper.duration := 0 |}
  /\ nth_error (sleeper.sleepers
                  (final (exec sleeper.mock (sleeper.DoWork (sleeper.NewWorker 0%nat))
                            {| sleeper.stdout := []; sleeper.sleepers := [{| sleeper.duration := 0 |}] |}))) 0
     = Some {| sleeper.duration := 2000000000 |}.
Proof.
  split; [reflexivity |].
  apply (proj2 DoWork_sleeps_two_seconds_once [] [{| sleeper.duration := 0 |}] 0%nat {| sleeper.duration := 0 |}).
  reflexivity.
Defined.

(** C4, as the code has it: for every capability [DoWork] prints the start
    marker, then calls [Sleep], then prints the completion marker, in this
    order and nothing else, and hands back no value to its caller. *)
Theorem DoWork_print_sleep_print :
  (forall (S St : Type) (h : handler (sleeper.Sleeper S) St) (w : sleeper.Worker S) (st : St),
      calls (exec h (sleeper.DoWork w) st)
      = [Call (sleeper.Println "Starting work...");
         Call (sleeper.Sleep (sleeper.sleeper w) (2 * sleeper.Second));
         Call (sleeper.Println "Work complete!")]
      /\ result (exec h (sleeper.DoWork w) st) = [])
  /\ (forall (out : list string) (ms : list sleeper.mockSleeper) (p : nat),
      sleeper.stdout (final (exec sleeper.mock (sleeper.DoWork (sleeper.NewWorker p))
                               {| sleeper.stdout := out; sleeper.sleepers := ms |}))
      = out ++ [("Starting work..." ++ newline)%string; ("Work complete!" ++ newline)%string]).
Proof.
  split.
  - intros S St h w st. now rewrite exec_DoWork.
  - intros out ms p. rewrite exec_DoWork. cbn. now rewrite <- app_assoc.
Qed.

(** C4 as stated fails: run with the recording double, [DoWork] hands back
    no completion signal, constant or not. *)
Lemma DoWork_returns_no_signal :
  ~ exists signal : value,
      result (exec sleeper.mock (sleeper.DoWork (sleeper.NewWorker 0%nat))
                {| sleeper.stdout := []; sleeper.sleepers := [{| sleeper.duration := 0 |}] |})
      = [signal].
Proof.
  intros [signal H]. discriminate H.
Qed.

(** ** The response body *)

(** C5, as the code has it: whenever the capability answers with a response
    and no error, the body is closed exactly once, by the last call of the
    run, on every path (any status code, a read or a decode that fails or
    succeeds); when the capability answers with an error there is no body to
    close and no [Close] is called. *)
Theorem GetUser_closes_body_once {C B S : Type} (h : handler (HTTPClient C B) S)
    (client : C) (id : Z) (s : S) :
  (forall resp b s1,
      h _ (Get client (user_url id)) s = ((Some resp, None), s1) -> Body resp = Some b ->
      closes (calls (exec h (GetUser client id) s)) = [b]
      /\ exists before, calls (exec h (GetUser client id) s) = before ++ [Call (Close b)]
                        /\ closes before = [])
  /\ (forall resp e s1,
      h _ (Get client (user_url id)) s = ((resp, Some e), s1) ->
      closes (calls (exec h (GetUser client id) s)) = []).
Proof.
  split.
  - intros resp b s1 Hget Hbody.
    rewrite (exec_GetUser_response h _ _ _ _ _ _ Hget Hbody). cbn [calls result]. split.
    + cbn [closes]. rewrite closes_app, closes_after_defer. reflexivity.
    + exists (Call (Get client (user_url id)) :: calls (exec h (after_defer resp b) s1)).
      split; [reflexivity |]. cbn [closes]. apply closes_after_defer.
  - intros resp e s1 Hget. now rewrite (exec_GetUser_error h _ _ _ _ _ _ Hget).
Qed.

Lemma GetUser_closes_body_once_witness :
  closes (calls (exec mock (GetUser {| statusCode := 200; body := body_john_doe; err := None |} 1) []))
  = [0%nat]
  /\ closes (calls (exec mock (GetUser {| statusCode := 404; body := EmptyString; err := None |} 1) []))
     = [0%nat]
  /\ closes (calls (exec mock (GetUser {| statusCode := 200; body := body_invalid; err := None |} 1) []))
     = [0%nat].
Proof.
  refine (conj _ (conj _ _)).
  - apply (proj1 (GetUser_closes_body_once mock _ 1 [])
             {| StatusCode := 200; Body := Some 0%nat |} 0%nat [body_john_doe]); reflexivity.
  - apply (proj1 (GetUser_closes_body_once mock _ 1 [])
             {| StatusCode := 404; Body := Some 0%nat |} 0%nat [EmptyString]); reflexivity.
  - apply (proj1 (GetUser_closes_body_once mock _ 1 [])
             {| StatusCode := 200; Body := Some 0%nat |} 0%nat [body_invalid]); reflexivity.
Defined.

(** C5 as stated fails on the transport-error branch: the double of the
    test table's "http error" case makes [GetUser] return, and the only call
    of the run is the [Get]: nothing is closed. *)
Lemma GetUser_transport_error_closes_nothing :
  exec mock (GetUser {| statusCode := 0; body := EmptyString; err := Some ErrUnexpectedEOF |} 1) []
  = {| result := Returned (zero, Some (wrapError "failed to fetch user: unexpected EOF" ErrUnexpectedEOF));
       final := [];
       calls := [Call (Get {| statusCode := 0; body := EmptyString; err := Some ErrUnexpectedEOF |}
                        "https://jsonplaceholder.typicode.com/users/1")] |}
  /\ closes (calls (exec mock
                      (GetUser {| statusCode := 0; body := EmptyString; err := Some ErrUnexpectedEOF |} 1) []))
     = [].
Proof.
  split; reflexivity.
Qed.

(** ** Particular answers *)

Lemma nth_length (buffers : list string) (b : string) :
  nth (List.length buffers) (buffers ++ [b]) EmptyString = b.
Proof.
  induction buffers as [| x xs IH]; simpl; [reflexivity | exact IH].
Qed.

(** The repository's double, when it holds no error: [Get] answers with
    its status code and a new buffer, which [ReadAll] reads in full. *)
Lemma mock_Get (m : mockHTTPClient) (url : string) (buffers : list string) :
  err m = None ->
  mock _ (Get m url) buffers
  = ((Some {| StatusCode := statusCode m; Body := Some (List.length buffers) |}, None), buffers ++ [body m]).
Proof.
  intros H. simpl. now rewrite H.
Qed.

Lemma mock_ReadAll (m : mockHTTPClient) (buffers : list string) :
  mock _ (ReadAll (C := mockHTTPClient) (List.length buffers)) (buffers ++ [body m])
  = ((body m, None), drain (buffers ++ [body m]) (List.length buffers)).
Proof.
  simpl. now rewrite nth_length.
Qed.



Lemma Unmarshal_john_doe :
  json.Unmarshal body_john_doe zero = Returned ({| Name := "John Doe" |}, None)
  /\ json.Unmarshal body_john_doe_compact zero = Returned ({| Name := "John Doe" |}, None).
Proof.
  split; vm_compute; reflexivity.
Qed.

(** C7: for every double answering with status 200, no error and a body
    that reads as [{"name": "John Doe"}] (as the test writes it, or without
    the space as the specification does), [GetUser] returns the record named
    ["John Doe"] and a nil error; so for the repository's double. *)
Theorem GetUser_john_doe :
  (forall (C B S : Type) (h : handler (HTTPClient C B) S) (client : C) (id : Z) (s s1 s2 : S)
          (resp : Response B) (b : B) (data : string),
      h _ (Get client (user_url id)) s = ((Some resp, None), s1) -> Body resp = Some b ->
      StatusCode resp = StatusOK ->
      h _ (ReadAll b) s1 = ((data, None), s2) ->
      data = body_john_doe \/ data = body_john_doe_compact ->
      result (exec h (GetUser client id) s) = Returned ({| Name := "John Doe" |}, None))
  /\ (forall (id : Z) (buffers : list string),
      result (exec mock (GetUser {| statusCode := 200; body := body_john_doe; err := None |} id) buffers)
      = Returned ({| Name := "John Doe" |}, None)).
Proof.
  assert (Hgen : forall (C B S : Type) (h : handler (HTTPClient C B) S) (client : C) (id : Z) (s s1 s2 : S)
                        (resp : Response B) (b : B) (data : string),
             h _ (Get client (user_url id)) s = ((Some resp, None), s1) -> Body resp = Some b ->
             StatusCode resp = StatusOK ->
             h _ (ReadAll b) s1 = ((data, None), s2) ->
             data = body_john_doe \/ data = body_john_doe_compact ->
             result (exec h (GetUser client id) s) = Returned ({| Name := "John Doe" |}, None)).
  { intros C B S h client id s s1 s2 resp b data Hget Hbody Hcode Hread Hdata.
    rewrite (exec_GetUser_response h _ _ _ _ _ _ Hget Hbody). cbn [result].
    rewrite exec_after_defer_read by exact Hcode. rewrite Hread. cbn [result fst snd].
    destruct Hdata as [-> | ->];
      [rewrite (proj1 Unmarshal_john_doe) | rewrite (proj2 Unmarshal_john_doe)]; reflexivity. }
  split; [exact Hgen |].
  intros id buffers.
  eapply (Hgen _ _ _ mock _ id buffers (buffers ++ [body_john_doe]) _
            {| StatusCode := 200; Body := Some (List.length buffers) |} (List.length buffers) body_john_doe).
  - reflexivity.
  - reflexivity.
  - reflexivity.
  - apply (mock_ReadAll {| statusCode := 200; body := body_john_doe; err := None |}).
  - now left.
Qed.

Lemma GetUser_john_doe_witness :
  result (exec (script {| get_resp := Some {| StatusCode := 200; Body := Some tt |}; get_err := None;
                          read_data := body_john_doe_compact; read_err := None; close_err := Some ErrUnexpectedEOF |})
               (GetUser tt 7) tt)
  = Returned ({| Name := "John Doe" |}, None).
Proof.
  apply (proj1 GetUser_john_doe _ _ _ (script _) tt 7 tt tt tt
           {| StatusCode := 200; Body := Some tt |} tt body_john_doe_compact);
    try reflexivity.
  now right.
Defined.

(** ** Objects without the field *)

Lemma decode_members_skips (ms : list (string * json.value)) (u : User) (saved : option error) :
  (forall k v, In (k, v) ms -> json.selects_name k = false) ->
  json.decode_members ms u saved = (u, saved).
Proof.
  induction ms as [| [k v] ms IH]; intros Hkeys; simpl; [reflexivity |].
  rewrite (Hkeys k v) by now left.
  apply IH. intros k' v' Hin. apply (Hkeys k' v'). now right.
Qed.

Lemma Unmarshal_without_name (data : string) (ms : list (string * json.value)) (off : Z) :
  json.checkValid data = None ->
  json.parse data = Some (json.Object ms off) ->
  (forall k v, In (k, v) ms -> json.selects_name k = false) ->
  json.Unmarshal data zero = Returned (zero, None).
Proof.
  intros Hvalid Hparse Hkeys. unfold json.Unmarshal. rewrite Hvalid, Hparse. simpl.
  now rewrite decode_members_skips.
Qed.

(** Keys select the field whatever their letter case: an object whose only
    key is [NAME] fills the name. *)
Lemma Unmarshal_folded_key :
  json.selects_name "NAME" = true
  /\ json.selects_name "other" = false
  /\ json.Unmarshal ("{" ++ quoted "NAME" ++ ": " ++ quoted "Bob" ++ "}")%string zero
     = Returned ({| Name := "Bob" |}, None).
Proof.
  refine (conj _ (conj _ _)); vm_compute; reflexivity.
Qed.

(** C10, as the code has it: for every double answering with status 200, no
    error and a body that is a valid JSON object none of whose keys is
    [name] in any letter case, [GetUser] returns the record with the empty
    name and a nil error; so for the repository's double holding [{}] or
    [{"other": 1}]. *)
Theorem GetUser_object_without_name :
  (forall (C B S : Type) (h : handler (HTTPClient C B) S) (client : C) (id : Z) (s s1 s2 : S)
          (resp : Response B) (b : B) (data : string) (ms : list (string * json.value)) (off : Z),
      h _ (Get client (user_url id)) s = ((Some resp, None), s1) -> Body resp = Some b ->
      StatusCode resp = StatusOK ->
      h _ (ReadAll b) s1 = ((data, None), s2) ->
      json.checkValid data = None ->
      json.parse data = Some (json.Object ms off) ->
      (forall k v, In (k, v) ms -> json.selects_name k = false) ->
      result (exec h (GetUser client id) s) = Returned ({| Name := EmptyString |}, None))
  /\ (forall (id : Z) (buffers : list string),
      result (exec mock (GetUser {| statusCode := 200; body := body_empty_object; err := None |} id) buffers)
      = Returned ({| Name := EmptyString |}, None)
      /\ result (exec mock (GetUser {| statusCode := 200; body := body_other; err := None |} id) buffers)
         = Returned ({| Name := EmptyString |}, None)).
Proof.
  assert (Hgen : forall (C B S : Type) (h : handler (HTTPClient C B) S) (client : C) (id : Z) (s s1 s2 : S)
                        (resp : Response B) (b : B) (data : string),
             h _ (Get client (user_url id)) s = ((Some resp, None), s1) -> Body resp = Some b ->
             StatusCode resp = StatusOK ->
             h _ (ReadAll b) s1 = ((data, None), s2) ->
             json.Unmarshal data zero = Returned (zero, None) ->
             result (exec h (GetUser client id) s) = Returned ({| Name := EmptyString |}, None)).
  { intros C B S h client id s s1 s2 resp b data Hget Hbody Hcode Hread Hjson.
    rewrite (exec_GetUser_response h _ _ _ _ _ _ Hget Hbody). cbn [result].
    rewrite exec_after_defer_read by exact Hcode. rewrite Hread. cbn [result fst snd].
    now rewrite Hjson. }
  split.
  - intros C B S h client id s s1 s2 resp b data ms off Hget Hbody Hcode Hread Hvalid Hparse Hkeys.
    apply (Hgen C B S h client id s s1 s2 resp b data Hget Hbody Hcode Hread).
    exact (Unmarshal_without_name data ms off Hvalid Hparse Hkeys).
  - intros id buffers. split.
    + eapply (Hgen _ _ _ mock _ id buffers (buffers ++ [body_empty_object]) _
                {| StatusCode := 200; Body := Some (List.length buffers) |} (List.length buffers)
                body_empty_object);
        [reflexivity | reflexivity | reflexivity | | vm_compute; reflexivity].
      apply (mock_ReadAll {| statusCode := 200; body := body_empty_object; err := None |}).
    + eapply (Hgen _ _ _ mock _ id buffers (buffers ++ [body_other]) _
                {| StatusCode := 200; Body := Some (List.length buffers) |} (List.length buffers)
                body_other);
        [reflexivity | reflexivity | reflexivity | | vm_compute; reflexivity].
      apply (mock_ReadAll {| statusCode := 200; body := body_other; err := None |}).
Qed.

Lemma GetUser_object_without_name_witness :
  json.checkValid body_other = None
  /\ json.parse body_other = Some (json.Object [("other"%string, json.Number "1" 11)] 1)
  /\ result (exec (script {| get_resp := Some {| StatusCode := 200; Body := Some tt |}; get_err := None;
                             read_data := body_other; read_err := None; close_err := None |})
                  (GetUser tt 1) tt)
     = Returned ({| Name := EmptyString |}, None).
Proof.
  refine (conj eq_refl (conj eq_refl _)).
  apply (proj1 GetUser_object_without_name _ _ _ (script _) tt 1 tt tt tt
           {| StatusCode := 200; Body := Some tt |} tt body_other
           [("other"%string, json.Number "1" 11)] 1); try reflexivity.
  intros k v [Hin | []]. injection Hin as <- _. reflexivity.
Defined.

(** C10 as stated fails: [[]] is valid JSON and holds no [name] field, yet
    with status 200 and this body [GetUser] returns a parse failure. *)
Lemma GetUser_array_body_is_parse_failure :
  json.checkValid "[]" = None
  /\ json.parse "[]" = Some (json.Array [] 1)
  /\ result (exec mock (GetUser {| statusCode := 200; body := "[]"; err := None |} 1) [])
     = Returned (zero,
                 Some (wrapError
                         "failed to parse user: json: cannot unmarshal array into Go value of type main.User"
                         (UnmarshalTypeError "array" "main.User" 1 EmptyString EmptyString))).
Proof.
  refine (conj _ (conj _ _)); vm_compute; reflexivity.
Qed.

(** ** Calling twice *)

Lemma record_duration_twice (ms : list sleeper.mockSleeper) (p : nat) (d : sleeper.Duration) :
  sleeper.record_duration (sleeper.record_duration ms p d) p d = sleeper.record_duration ms p d.
Proof.
  revert p. induction ms as [| m ms IH]; intros [| p]; simpl; try reflexivity.
  now rewrite IH.
Qed.

(** The repository's double answers [GetUser] the same from any store of
    buffers. *)
Lemma mock_GetUser_any_store (m : mockHTTPClient) (id : Z) (buffers buffers' : list string) :
  result (exec mock (GetUser m id) buffers) = result (exec mock (GetUser m id) buffers').
Proof.
  destruct (err m) as [e |] eqn:Herr.
  - assert (Hget : forall bs, mock _ (Get m (user_url id)) bs = ((None, Some e), bs))
      by (intros bs; simpl; now rewrite Herr).
    now rewrite (exec_GetUser_error mock _ _ _ _ _ _ (Hget buffers)),
                (exec_GetUser_error mock _ _ _ _ _ _ (Hget buffers')).
  - rewrite (exec_GetUser_response mock _ _ _ _ _ _ (mock_Get m _ buffers Herr) eq_refl).
    rewrite (exec_GetUser_response mock _ _ _ _ _ _ (mock_Get m _ buffers' Herr) eq_refl).
    cbn [result].
    destruct (Z.eq_dec (statusCode m) StatusOK) as [Hcode | Hcode].
    + rewrite !exec_after_defer_read by exact Hcode. cbn [result].
      now rewrite !mock_ReadAll.
    + now rewrite !exec_after_defer_status by exact Hcode.
Qed.

(** A double whose answers do not depend on what it was asked before
    answers [GetUser] the same from any state. *)
Lemma GetUser_fixed_answers {C B S : Type} (h : handler (HTTPClient C B) S) :
  (forall X (e : HTTPClient C B X) (s s' : S), fst (h X e s) = fst (h X e s')) ->
  forall (client : C) (id : Z) (s s' : S),
    result (exec h (GetUser client id) s) = result (exec h (GetUser client id) s').
Proof.
  intros Hfix client id s s'.
  pose proof (Hfix _ (Get client (user_url id)) s s') as Hget.
  destruct (h _ (Get client (user_url id)) s) as [[resp cause] s1] eqn:E.
  destruct (h _ (Get client (user_url id)) s') as [[resp' cause'] s1'] eqn:E'.
  cbn [fst] in Hget. inversion Hget; subst resp' cause'. clear Hget.
  destruct cause as [e |].
  - now rewrite (exec_GetUser_error h _ _ _ _ _ _ E), (exec_GetUser_error h _ _ _ _ _ _ E').
  - destruct resp as [resp |].
    2:{ now rewrite (exec_GetUser_nil h _ _ _ _ _ E I), (exec_GetUser_nil h _ _ _ _ _ E' I). }
    destruct (Body resp) as [b |] eqn:Hbody.
    2:{ now rewrite (exec_GetUser_nil h _ _ _ _ _ E Hbody), (exec_GetUser_nil h _ _ _ _ _ E' Hbody). }
    rewrite (exec_GetUser_response h _ _ _ _ _ _ E Hbody), (exec_GetUser_response h _ _ _ _ _ _ E' Hbody).
    cbn [result].
    destruct (Z.eq_dec (StatusCode resp) StatusOK) as [Hcode | Hcode].
    + rewrite !exec_after_defer_read by exact Hcode. cbn [result].
      now rewrite (Hfix _ (ReadAll b) s1 s1').
    + now rewrite !exec_after_defer_status by exact Hcode.
Qed.

(** C9: each consumer, called twice with the same double and the same
    inputs, gives the same results both times.  With the repository's
    doubles: [GenerateName] returns the same name; [DoWork] makes the same
    calls, hands back the same (empty) results and leaves the same duration
    recorded; [GetUser] returns the same record and error.  And with any
    double whose answers are fixed (they do not depend on what it was asked
    before): the second call of [GenerateName] or [GetUser] returns what the
    first returned, and [DoWork] makes the same calls with any double at
    all. *)
Theorem consumers_repeat :
  (forall (m : rng.mockStringGenerator) (baseName : string),
      let ng := {| rng.generator := m |} in
      let once := exec rng.mock (rng.GenerateName ng baseName) tt in
      result (exec rng.mock (rng.GenerateName ng baseName) (final once)) = result once)
  /\ (forall (out : list string) (ms : list sleeper.mockSleeper) (p : nat),
      let w := sleeper.NewWorker p in
      let once := exec sleeper.mock (sleeper.DoWork w) {| sleeper.stdout := out; sleeper.sleepers := ms |} in
      let twice := exec sleeper.mock (sleeper.DoWork w) (final once) in
      result twice = result once
      /\ calls twice = calls once
      /\ sleeper.sleepers (final twice) = sleeper.sleepers (final once))
  /\ (forall (m : mockHTTPClient) (id : Z) (buffers : list string),
      let once := exec mock (GetUser m id) buffers in
      result (exec mock (GetUser m id) (final once)) = result once)
  /\ (forall (G S : Type) (h : handler (rng.StringGenerator G) S),
      (forall X (e : rng.StringGenerator G X) (s s' : S), fst (h X e s) = fst (h X e s')) ->
      forall (ng : rng.NameGenerator G) (baseName : string) (s : S),
        let once := exec h (rng.GenerateName ng baseName) s in
        result (exec h (rng.GenerateName ng baseName) (final once)) = result once)
  /\ (forall (S St : Type) (h : handler (sleeper.Sleeper S) St) (w : sleeper.Worker S) (st : St),
      let once := exec h (sleeper.DoWork w) st in
      let twice := exec h (sleeper.DoWork w) (final once) in
      result twice = result once /\ calls twice = calls once)
  /\ (forall (C B S : Type) (h : handler (HTTPClient C B) S),
      (forall X (e : HTTPClient C B X) (s s' : S), fst (h X e s) = fst (h X e s')) ->
      forall (client : C) (id : Z) (s : S),
        let once := exec h (GetUser client id) s in
        result (exec h (GetUser client id) (final once)) = result once).
Proof.
  refine (conj _ (conj _ (conj _ (conj _ (conj _ _))))).
  - intros m baseName ng once. subst once. unfold rng.GenerateName.
    now rewrite !exec_bind, !exec_trigger.
  - intros out ms p w once twice. subst once twice. rewrite !exec_DoWork. cbn.
    repeat split. apply record_duration_twice.
  - intros m id buffers once. apply mock_GetUser_any_store.
  - intros G S h Hfix ng baseName s once. subst once. unfold rng.GenerateName.
    rewrite !exec_bind, !exec_trigger. cbn [result final].
    now rewrite (Hfix _ (rng.Generate (rng.generator ng)) _ s).
  - intros S St h w st once twice. subst once twice. rewrite !exec_DoWork. split; reflexivity.
  - intros C B S h Hfix client id s once. now apply GetUser_fixed_answers.
Qed.

Lemma consumers_repeat_witness :
  result (exec (script {| get_resp := Some {| StatusCode := 200; Body := Some tt |}; get_err := None;
                          read_data := body_john_doe; read_err := None; close_err := None |})
               (GetUser tt 1)
               (final (exec (script {| get_resp := Some {| StatusCode := 200; Body := Some tt |};
                                        get_err := None; read_data := body_john_doe; read_err := None;
                                        close_err := None |})
                            (GetUser tt 1) tt)))
  = Returned ({| Name := "John Doe" |}, None)
  /\ result (exec rng.mock (rng.GenerateName {| rng.generator := {| rng.value := "abc12" |} |} "my-pod")
               (final (exec rng.mock
                         (rng.GenerateName {| rng.generator := {| rng.value := "abc12" |} |} "my-pod") tt)))
     = "my-pod-abc12"%string.
Proof.
  split.
  - apply (proj2 (proj2 (proj2 (proj2 (proj2 consumers_repeat)))) _ _ _
             (script {| get_resp := Some {| StatusCode := 200; Body := Some tt |}; get_err := None;
                        read_data := body_john_doe; read_err := None; close_err := None |})
             (fun X e s s' => match s, s' with tt, tt => eq_refl end) tt 1 tt).
  - apply (proj1 (proj2 (proj2 (proj2 consumers_repeat))) _ _ rng.mock).
    intros X e [] []. reflexivity.
Defined.

(** ** Random suffixes *)

Lemma get_in (s : string) (i : nat) :
  (i < String.length s)%nat ->
  exists c, String.get i s = Some c /\ In c (list_ascii_of_string s).
Proof.
  revert i. induction s as [| a s IH]; intros i Hi; simpl in Hi; [lia |].
  destruct i as [| i]; simpl.
  - exists a. split; [reflexivity | now left].
  - destruct (IH i ltac:(lia)) as (c & Hget & Hin). exists c. split; [exact Hget | now right].
Qed.

Lemma index_charset (n : Z) :
  0 <= n < 36 ->
  exists c, index rng.charset n = Some c /\ In c (list_ascii_of_string rng.charset).
Proof.
  intros Hn. unfold index. destruct (n <? 0) eqn:E; [apply Z.ltb_lt in E; lia |].
  apply get_in. change (String.length rng.charset) with 36%nat. lia.
Qed.

Lemma charset_NoDup : NoDup (list_ascii_of_string rng.charset).
Proof.
  apply (NoDup_map_inv byte). vm_compute.
  repeat (constructor; [simpl; intuition discriminate |]). constructor.
Qed.

Section Draws.

Context {R S : Type} (h : handler (rng.Rand R) S).

(** [Intn(n)] returns an index in [[0, n)]. *)
Hypothesis Intn_range : forall (r : R) (n : Z) (s : S), 0 < n -> 0 <= fst (h _ (rng.Intn r n) s) < n.

(** C8: for every state of the random source, [Generate] returns a string of
    exactly 5 bytes, each from the 36-byte alphabet
    [abcdefghijklmnopqrstuvwxyz0123456789]: it asks the source five times
    for an index below 36, every index is within the alphabet's bounds (no
    panic), and the i-th byte is the alphabet's byte at the i-th index.  The
    alphabet has no repeated byte, so distinct draws give distinct strings
    and the strings are as evenly spread as the draws. *)
Theorem Generate_five_alphanumerics (g : rng.RandomStringGenerator R) (s : S) :
  len rng.charset = 36
  /\ NoDup (list_ascii_of_string rng.charset)
  /\ calls (exec h (rng.RandomStringGenerator_Generate g) s) = repeat (Call (rng.Intn (rng.rng g) 36)) 5
  /\ Forall (fun n => 0 <= n < len rng.charset) (rng.draws h (rng.rng g) 5 s)
  /\ exists suffix : string,
      result (exec h (rng.RandomStringGenerator_Generate g) s) = Returned suffix
      /\ String.length suffix = 5%nat
      /\ Forall (fun c => In c (list_ascii_of_string rng.charset)) (list_ascii_of_string suffix)
      /\ map (index rng.charset) (rng.draws h (rng.rng g) 5 s) = map Some (list_ascii_of_string suffix).
Proof.
  split; [reflexivity |]. split; [exact charset_NoDup |].
  unfold rng.RandomStringGenerator_Generate. rewrite exec_bind.
  change rng.suffixLen with 5%nat. cbn [seq repeat rng.fill rng.draws exec].
  change (len rng.charset) with 36.
  destruct (h _ (rng.Intn (rng.rng g) 36) s) as [n0 s0] eqn:E0.
  pose proof (Intn_range (rng.rng g) 36 s ltac:(lia)) as H0. rewrite E0 in H0. cbn [fst] in H0.
  destruct (index_charset n0 H0) as (c0 & Hc0 & Hin0). rewrite Hc0. cbn [rng.store option_map exec].
  destruct (h _ (rng.Intn (rng.rng g) 36) s0) as [n1 s1] eqn:E1.
  pose proof (Intn_range (rng.rng g) 36 s0 ltac:(lia)) as H1. rewrite E1 in H1. cbn [fst] in H1.
  destruct (index_charset n1 H1) as (c1 & Hc1 & Hin1). rewrite Hc1. cbn [rng.store option_map exec].
  destruct (h _ (rng.Intn (rng.rng g) 36) s1) as [n2 s2] eqn:E2.
  pose proof (Intn_range (rng.rng g) 36 s1 ltac:(lia)) as H2. rewrite E2 in H2. cbn [fst] in H2.
  destruct (index_charset n2 H2) as (c2 & Hc2 & Hin2). rewrite Hc2. cbn [rng.store option_map exec].
  destruct (h _ (rng.Intn (rng.rng g) 36) s2) as [n3 s3] eqn:E3.
  pose proof (Intn_range (rng.rng g) 36 s2 ltac:(lia)) as H3. rewrite E3 in H3. cbn [fst] in H3.
  destruct (index_charset n3 H3) as (c3 & Hc3 & Hin3). rewrite Hc3. cbn [rng.store option_map exec].
  destruct (h _ (rng.Intn (rng.rng g) 36) s3) as [n4 s4] eqn:E4.
  pose proof (Intn_range (rng.rng g) 36 s3 ltac:(lia)) as H4. rewrite E4 in H4. cbn [fst] in H4.
  destruct (index_charset n4 H4) as (c4 & Hc4 & Hin4). rewrite Hc4. cbn [rng.store option_map exec].
  cbn [result final calls app].
  split; [reflexivity |].
  split; [repeat (apply Forall_cons; [assumption |]); apply Forall_nil |].
  exists (string_of_list_ascii [c0; c1; c2; c3; c4]).
  rewrite list_ascii_of_string_of_list_ascii.
  split; [reflexivity |]. split; [reflexivity |].
  split; [repeat (apply Forall_cons; [assumption |]); apply Forall_nil |].
  cbn [map]. now rewrite Hc0, Hc1, Hc2, Hc3, Hc4.
Qed.

End Draws.

Lemma lcg_range (r : unit) (n : Z) (s : Z) : 0 < n -> 0 <= fst (rng.lcg _ (rng.Intn r n) s) < n.
Proof.
  intros Hn. simpl. now apply Z.mod_pos_bound.
Qed.

Lemma Generate_five_alphanumerics_witness :
  result (exec rng.lcg (rng.RandomStringGenerator_Generate {| rng.rng := tt |}) 2024) = Returned "ifw96"%string
  /\ exists suffix : string,
      result (exec rng.lcg (rng.RandomStringGenerator_Generate {| rng.rng := tt |}) 2024) = Returned suffix
      /\ String.length suffix = 5%nat.
Proof.
  split; [vm_compute; reflexivity |].
  destruct (Generate_five_alphanumerics rng.lcg lcg_range {| rng.rng := tt |} 2024)
    as (_ & _ & _ & _ & suffix & Hrun & Hlen & _).
  exists suffix. split; assumption.
Defined.

(** * Further properties *)

(** ** Production wiring *)

Lemma exec_after {E : Type -> Type} {S A B : Type} (h : handler E S) (p : prog E (outcome A))
    (k : A -> prog E (outcome B)) (s : S) :
  exec h (after p k) s =
  match result (exec h p s) with
  | Returned a =>
      {| result := result (exec h (k a) (final (exec h p s)));
         final := final (exec h (k a) (final (exec h p s)));
         calls := calls (exec h p s) ++ calls (exec h (k a) (final (exec h p s))) |}
  | Panicked => {| result := Panicked; final := final (exec h p s); calls := calls (exec h p s) |}
  end.
Proof.
  unfold after. rewrite exec_bind.
  destruct (result (exec h p s)); [reflexivity |]. cbn. now rewrite app_nil_r.
Qed.

Lemma exec_inject_right {E F : Type -> Type} {A B R : Type} (ha : handler E A) (hb : handler F B)
    (p : prog F R) (a : A) (b : B) :
  exec (beside ha hb) (inject (fun X => OnRight) p) (a, b) =
  {| result := result (exec hb p b);
     final := (a, final (exec hb p b));
     calls := map (inject_call (fun X => OnRight)) (calls (exec hb p b)) |}.
Proof.
  revert b. induction p as [r | X e k IH]; intros b; cbn.
  - reflexivity.
  - destruct (hb X e b) as [x b1]. cbn. rewrite IH. reflexivity.
Qed.

Lemma exec_Println {F : Type -> Type} {B : Type} (hb : handler F B) (line : string) (out : list string) (b : B) :
  exec (beside console hb) (Println line) (out, b) =
  {| result := Returned tt; final := (out ++ [(line ++ newline)%string], b);
     calls := [Call (OnLeft (Write (line ++ newline)))] |}.
Proof. reflexivity. Qed.

Lemma exec_Printf {F : Type -> Type} {B : Type} (hb : handler F B) (f : string) (args : list fmt.arg)
    (out : list string) (b : B) :
  exec (beside console hb) (Printf f args) (out, b) =
  {| result := Returned tt; final := (out ++ [fmt.Sprintf f args], b);
     calls := [Call (OnLeft (Write (fmt.Sprintf f args)))] |}.
Proof. reflexivity. Qed.

Section Production.

Context {R S : Type} (h : handler (rng.Rand R) S).
Hypothesis Intn_range : forall (r : R) (n : Z) (s : S), 0 < n -> 0 <= fst (h _ (rng.Intn r n) s) < n.

Ltac draw g s n s' c :=
  let E := fresh "E" in
  let H := fresh "H" in
  let Hc := fresh "Hc" in
  destruct (h _ (rng.Intn (rng.rng g) 36) s) as [n s'] eqn:E;
  pose proof (Intn_range (rng.rng g) 36 s ltac:(lia)) as H; rewrite E in H; cbn [fst] in H;
  destruct (index_charset n H) as (c & Hc & ?); rewrite Hc; cbn [rng.store option_map exec].

(** A run of the production generator: five draws, five bytes of the
    alphabet. *)
Lemma exec_Generate (g : rng.RandomStringGenerator R) (s : S) :
  exists suffix : string,
    result (exec h (rng.RandomStringGenerator_Generate g) s) = Returned suffix
    /\ calls (exec h (rng.RandomStringGenerator_Generate g) s) = repeat (Call (rng.Intn (rng.rng g) 36)) 5
    /\ String.length suffix = 5%nat
    /\ Forall (fun c => In c (list_ascii_of_string rng.charset)) (list_ascii_of_string suffix).
Proof.
  unfold rng.RandomStringGenerator_Generate. rewrite exec_bind.
  change rng.suffixLen with 5%nat. cbn [seq repeat rng.fill exec].
  change (len rng.charset) with 36.
  draw g s n0 s0 c0. draw g s0 n1 s1 c1. draw g s1 n2 s2 c2. draw g s2 n3 s3 c3. draw g s3 n4 s4 c4.
  cbn [result final calls app].
  exists (string_of_list_ascii [c0; c1; c2; c3; c4]).
  rewrite list_ascii_of_string_of_list_ascii.
  repeat split; try reflexivity.
  repeat (apply Forall_cons; [assumption |]). apply Forall_nil.
Qed.


Lemma charset_no_hyphen : ~ In "-"%char (list_ascii_of_string rng.charset).
Proof.
  cbn. intuition discriminate.
Qed.

Lemma length_append (a b : string) : String.length (a ++ b) = (String.length a + String.length b)%nat.
Proof.
  induction a as [| c a IH]; cbn; [reflexivity | now rewrite IH].
Qed.

(** [GenerateName] on the production generator. *)
Lemma exec_production_name (ng : rng.NameGenerator (rng.RandomStringGenerator R)) (baseName : string) (s : S) :
  exists suffix : string,
    result (exec h (translate rng_main.production (rng.GenerateName ng baseName)) s)
    = Returned (baseName ++ "-" ++ suffix)%string
    /\ calls (exec h (translate rng_main.production (rng.GenerateName ng baseName)) s)
       = repeat (Call (rng.Intn (rng.rng (rng.generator ng)) 36)) 5
    /\ String.length suffix = 5%nat
    /\ Forall (fun c => In c (list_ascii_of_string rng.charset)) (list_ascii_of_string suffix).
Proof.
  destruct (exec_Generate (rng.generator ng) s) as (suffix & Hres & Hcalls & Hlen & Hin).
  exists suffix. cbn [rng.GenerateName bind trigger translate rng_main.production].
  rewrite exec_after, Hres. cbn [exec result final calls]. rewrite Hcalls, Sprintf_name, app_nil_r.
  auto.
Qed.

(** X1: wired with the production generator, [GenerateName] returns the base
    name, a hyphen and five bytes of the alphabet, after exactly five draws:
    the name is six bytes longer than the base name and its suffix holds no
    hyphen. *)
Theorem production_name_shape (ng : rng.NameGenerator (rng.RandomStringGenerator R)) (baseName : string)
    (s : S) :
  exists suffix : string,
    result (exec h (translate rng_main.production (rng.GenerateName ng baseName)) s)
    = Returned (baseName ++ "-" ++ suffix)%string
    /\ String.length (baseName ++ "-" ++ suffix) = (String.length baseName + 6)%nat
    /\ String.length suffix = 5%nat
    /\ Forall (fun c => In c (list_ascii_of_string rng.charset)) (list_ascii_of_string suffix)
    /\ ~ In "-"%char (list_ascii_of_string suffix)
    /\ calls (exec h (translate rng_main.production (rng.GenerateName ng baseName)) s)
       = repeat (Call (rng.Intn (rng.rng (rng.generator ng)) 36)) 5.
Proof.
  destruct (exec_production_name ng baseName s) as (suffix & Hres & Hcalls & Hlen & Hin).
  exists suffix. repeat split; try assumption.
  - rewrite !length_append, Hlen. cbn. lia.
  - intros Hhyphen. rewrite Forall_forall in Hin. exact (charset_no_hyphen (Hin _ Hhyphen)).
Qed.

(** X2: [main] never panics and writes four lines: the heading, then the
    three names, each made of its base name, a hyphen and five bytes of the
    alphabet; each name is drawn (five draws) just before it is printed. *)
Theorem main_prints_three_names (source : R) (out : list string) (s : S) :
  exists pod deployment service : string,
    let draws := repeat (Call (OnRight (rng.Intn source 36))) 5 in
    let lines := [("Generated names:" ++ newline)%string;
                  ("  Pod:        my-pod-" ++ pod ++ newline)%string;
                  ("  Deployment: nginx-deployment-" ++ deployment ++ newline)%string;
                  ("  Service:    api-service-" ++ service ++ newline)%string] in
    result (exec (beside console h) (rng_main.main source) (out, s)) = Returned tt
    /\ fst (final (exec (beside console h) (rng_main.main source) (out, s))) = out ++ lines
    /\ calls (exec (beside console h) (rng_main.main source) (out, s))
       = [Call (OnLeft (Write (nth 0 lines EmptyString)))] ++ draws
         ++ [Call (OnLeft (Write (nth 1 lines EmptyString)))] ++ draws
         ++ [Call (OnLeft (Write (nth 2 lines EmptyString)))] ++ draws
         ++ [Call (OnLeft (Write (nth 3 lines EmptyString)))]
    /\ Forall (fun suffix => String.length suffix = 5%nat
                             /\ Forall (fun c => In c (list_ascii_of_string rng.charset))
                                       (list_ascii_of_string suffix))
              [pod; deployment; service].
Proof.
  unfold rng_main.main, rng_main.GenerateName.
  set (ng := {| rng.generator := {| rng.rng := source |} |}).
  destruct (exec_production_name ng "my-pod" s) as (pod & Hres1 & Hcalls1 & Hlen1 & Hin1).
  set (s1 := final (exec h (translate rng_main.production (rng.GenerateName ng "my-pod")) s)) in *.
  destruct (exec_production_name ng "nginx-deployment" s1) as (dep & Hres2 & Hcalls2 & Hlen2 & Hin2).
  set (s2 := final (exec h (translate rng_main.production (rng.GenerateName ng "nginx-deployment")) s1)) in *.
  destruct (exec_production_name ng "api-service" s2) as (svc & Hres3 & Hcalls3 & Hlen3 & Hin3).
  exists pod, dep, svc. cbv zeta.
  rewrite exec_after, exec_Println. cbn [result final calls].
  rewrite exec_after, exec_inject_right. cbn [result final calls]. rewrite Hres1, Hcalls1. fold s1.
  rewrite exec_after, exec_Printf. cbn [result final calls].
  rewrite exec_after, exec_inject_right. cbn [result final calls]. rewrite Hres2, Hcalls2. fold s2.
  rewrite exec_after, exec_Printf. cbn [result final calls].
  rewrite exec_after, exec_inject_right. cbn [result final calls]. rewrite Hres3, Hcalls3.
  rewrite exec_Printf. cbn [result final calls fst].
  split; [reflexivity |]. split.
  { rewrite <- !app_assoc. reflexivity. }
  split; [reflexivity |].
  repeat (apply Forall_cons; [split; assumption |]). apply Forall_nil.
Qed.

End Production.

Lemma production_name_shape_witness :
  exists suffix : string,
    result (exec rng.lcg (translate rng_main.production
                            (rng.GenerateName {| rng.generator := {| rng.rng := tt |} |} "my-pod")) 2024)
    = Returned ("my-pod-" ++ suffix)%string
    /\ String.length suffix = 5%nat.
Proof.
  destruct (production_name_shape rng.lcg lcg_range {| rng.generator := {| rng.rng := tt |} |} "my-pod" 2024)
    as (suffix & Hres & _ & Hlen & _).
  exists suffix. split; assumption.
Defined.

Lemma main_prints_three_names_witness :
  result (exec (beside console rng.lcg) (rng_main.main tt) ([], 2024)) = Returned tt
  /\ List.length (fst (final (exec (beside console rng.lcg) (rng_main.main tt) ([], 2024)))) = 4%nat.
Proof.
  destruct (main_prints_three_names rng.lcg lcg_range tt [] 2024)
    as (pod & deployment & service & Hres & Hout & _).
  split; [exact Hres |]. now rewrite Hout.
Defined.

(** ** Names and their parts *)

Lemma append_inj_same_length (a b t u : string) :
  String.length t = String.length u -> (a ++ t)%string = (b ++ u)%string -> a = b /\ t = u.
Proof.
  revert b. induction a as [| c a IH]; intros b Hlen Heq.
  - destruct b as [| d b]; [now split |].
    exfalso. apply (f_equal String.length) in Heq. cbn in Heq. rewrite length_append in Heq. lia.
  - destruct b as [| d b].
    + exfalso. apply (f_equal String.length) in Heq. cbn in Heq. rewrite length_append in Heq. lia.
    + cbn in Heq. injection Heq as -> Heq. destruct (IH b Hlen Heq) as [-> ->]. now split.
Qed.

(** X3: two names made with suffixes of the same length are equal only when
    the base names and the suffixes are: from such a name both parts can be
    told.  With suffixes of different lengths this fails: a hyphen in the
    suffix is kept as it is. *)
Theorem GenerateName_parts :
  (forall (m1 m2 : rng.mockStringGenerator) (base1 base2 : string),
      String.length (rng.value m1) = String.length (rng.value m2) ->
      result (exec rng.mock (rng.GenerateName {| rng.generator := m1 |} base1) tt)
      = result (exec rng.mock (rng.GenerateName {| rng.generator := m2 |} base2) tt) ->
      base1 = base2 /\ rng.value m1 = rng.value m2)
  /\ result (exec rng.mock (rng.GenerateName {| rng.generator := {| rng.value := "b-c" |} |} "a") tt)
     = result (exec rng.mock (rng.GenerateName {| rng.generator := {| rng.value := "c" |} |} "a-b") tt).
Proof.
  split; [| reflexivity].
  intros m1 m2 base1 base2 Hlen Heq.
  unfold rng.GenerateName in Heq. rewrite !exec_bind, !exec_trigger in Heq.
  cbn [result final rng.mock fst snd exec] in Heq. rewrite !Sprintf_name in Heq.
  destruct (append_inj_same_length base1 base2 ("-" ++ rng.value m1) ("-" ++ rng.value m2)) as [Hb Hs].
  - cbn. now rewrite Hlen.
  - exact Heq.
  - split; [exact Hb |]. now injection Hs.
Qed.

Lemma GenerateName_parts_witness :
  String.length "abcde" = String.length "01234"
  /\ ("my-pod"%string = "my-pod"%string /\ "abcde"%string = "abcde"%string).
Proof.
  split; [reflexivity |].
  exact (proj1 GenerateName_parts {| rng.value := "abcde" |} {| rng.value := "abcde" |}
           "my-pod"%string "my-pod"%string eq_refl eq_refl).
Defined.

(** ** The request *)

Lemma to_int_not_nil (z : Z) : Z.to_int z <> Decimal.Pos Decimal.Nil /\ Z.to_int z <> Decimal.Neg Decimal.Nil.
Proof.
  destruct z as [| p | p]; cbn; split; try discriminate;
    intros [= H]; exact (DecimalPos.Unsigned.to_uint_nonnil p H).
Qed.

Lemma itoa_inj (i j : Z) : itoa i = itoa j -> i = j.
Proof.
  unfold itoa. intros H. apply DecimalZ.to_int_inj.
  destruct (to_int_not_nil i) as [Hi1 Hi2], (to_int_not_nil j) as [Hj1 Hj2].
  pose proof (NilZero.isi _ Hi1 Hi2) as Ei. pose proof (NilZero.isi _ Hj1 Hj2) as Ej.
  rewrite H in Ei. rewrite Ej in Ei. now injection Ei.
Qed.

Lemma user_url_itoa (id : Z) :
  user_url id = ("https://jsonplaceholder.typicode.com/users/" ++ itoa id)%string.
Proof.
  unfold user_url, fmt.Sprintf. cbn. now rewrite append_empty.
Qed.

(** X4: the address [GetUser] asks for is the fixed address of the users
    followed by the id in decimal, with a minus sign when it is negative;
    two ids have the same address only if they are equal. *)
Theorem user_url_of_id :
  (forall id : Z, user_url id = ("https://jsonplaceholder.typicode.com/users/" ++ itoa id)%string)
  /\ (forall id id' : Z, user_url id = user_url id' -> id = id')
  /\ user_url 0 = "https://jsonplaceholder.typicode.com/users/0"%string
  /\ user_url (-12) = "https://jsonplaceholder.typicode.com/users/-12"%string.
Proof.
  split; [exact user_url_itoa |]. split; [| split; reflexivity].
  intros id id' H. rewrite !user_url_itoa in H.
  apply itoa_inj.
  destruct (append_inj_same_length (String.append "https://jsonplaceholder.typicode.com/users/" (itoa id))
              (String.append "https://jsonplaceholder.typicode.com/users/" (itoa id')) EmptyString EmptyString
              eq_refl) as [H' _].
  - now rewrite !append_empty.
  - clear H. revert H'. cbn. intros H'. now injection H'.
Qed.

(** ** What [GetUser] asks of its client *)

(** X5: [GetUser] calls [Get] once, first, with the address of the user.  On
    an error nothing else is called.  On a status other than 200 the body is
    closed without being read.  On status 200 the body is read once, then
    closed.  There is no second request on any path. *)
Theorem GetUser_calls {C B S : Type} (h : handler (HTTPClient C B) S) (client : C) (id : Z) (s : S) :
  let url := ("https://jsonplaceholder.typicode.com/users/" ++ itoa id)%string in
  (forall resp e s1,
      h _ (Get client url) s = ((resp, Some e), s1) ->
      calls (exec h (GetUser client id) s) = [Call (Get client url)])
  /\ (forall resp b s1,
      h _ (Get client url) s = ((Some resp, None), s1) -> Body resp = Some b ->
      StatusCode resp <> 200 ->
      calls (exec h (GetUser client id) s) = [Call (Get client url); Call (Close b)])
  /\ (forall resp b s1,
      h _ (Get client url) s = ((Some resp, None), s1) -> Body resp = Some b ->
      StatusCode resp = 200 ->
      calls (exec h (GetUser client id) s) = [Call (Get client url); Call (ReadAll b); Call (Close b)]).
Proof.
  cbv zeta. rewrite <- user_url_itoa. refine (conj _ (conj _ _)).
  - intros resp e s1 Hget. now rewrite (exec_GetUser_error h _ _ _ _ _ _ Hget).
  - intros resp b s1 Hget Hbody Hcode.
    rewrite (exec_GetUser_response h _ _ _ _ _ _ Hget Hbody). cbn [calls].
    now rewrite exec_after_defer_status.
  - intros resp b s1 Hget Hbody Hcode.
    rewrite (exec_GetUser_response h _ _ _ _ _ _ Hget Hbody). cbn [calls].
    now rewrite exec_after_defer_read.
Qed.

Lemma GetUser_calls_witness :
  calls (exec mock (GetUser {| statusCode := 404; body := body_john_doe; err := None |} 7) [])
  = [Call (Get {| statusCode := 404; body := body_john_doe; err := None |}
             "https://jsonplaceholder.typicode.com/users/7");
     Call (Close 0%nat)]
  /\ calls (exec mock (GetUser {| statusCode := 200; body := body_john_doe; err := None |} 7) [])
     = [Call (Get {| statusCode := 200; body := body_john_doe; err := None |}
                "https://jsonplaceholder.typicode.com/users/7");
        Call (ReadAll 0%nat); Call (Close 0%nat)]
  /\ calls (exec mock (GetUser {| statusCode := 200; body := body_john_doe; err := Some ErrUnexpectedEOF |} 7) [])
     = [Call (Get {| statusCode := 200; body := body_john_doe; err := Some ErrUnexpectedEOF |}
                "https://jsonplaceholder.typicode.com/users/7")].
Proof.
  refine (conj _ (conj _ _)).
  - apply (proj1 (proj2 (GetUser_calls mock {| statusCode := 404; body := body_john_doe; err := None |} 7 []))
             {| StatusCode := 404; Body := Some 0%nat |} 0%nat [body_john_doe]);
      [reflexivity | reflexivity | discriminate].
  - apply (proj2 (proj2 (GetUser_calls mock {| statusCode := 200; body := body_john_doe; err := None |} 7 []))
             {| StatusCode := 200; Body := Some 0%nat |} 0%nat [body_john_doe]); reflexivity.
  - apply (proj1 (GetUser_calls mock {| statusCode := 200; body := body_john_doe; err := Some ErrUnexpectedEOF |}
                    7 []) None ErrUnexpectedEOF []); reflexivity.
Defined.

(** ** The repository's HTTP double *)

Lemma nth_app_left (buffers : list string) (b : string) (q : nat) :
  (q < List.length buffers)%nat -> nth q (buffers ++ [b]) EmptyString = nth q buffers EmptyString.
Proof.
  intros Hq. now apply app_nth1.
Qed.

Lemma drain_spec (buffers : list string) (p q : nat) :
  nth q (drain buffers p) EmptyString = if Nat.eqb q p then EmptyString else nth q buffers EmptyString.
Proof.
  revert p q. induction buffers as [| b rest IH]; intros p q.
  - cbn. destruct (Nat.eqb q p), q; reflexivity.
  - destruct p as [| p], q as [| q]; cbn; try reflexivity. apply IH.
Qed.

(** X6: the double's [Get] with an error set answers [(nil, err)] and makes
    no body.  Without one it answers its status code and a new body: reading
    that body gives back exactly the text the double holds, no error, and
    leaves every body made before untouched; reading it again gives the empty
    text; closing it reports nothing and changes nothing. *)
Theorem mock_Get_body_round_trip (m : mockHTTPClient) (url : string) (buffers : list string) :
  (forall e, err m = Some e -> mock _ (Get m url) buffers = ((None, Some e), buffers))
  /\ (err m = None ->
      let p := List.length buffers in
      let made := snd (mock _ (Get m url) buffers) in
      fst (mock _ (Get m url) buffers) = (Some {| StatusCode := statusCode m; Body := Some p |}, None)
      /\ fst (mock _ (ReadAll (C := mockHTTPClient) p) made) = (body m, None)
      /\ (forall q, (q < p)%nat ->
                    nth q (snd (mock _ (ReadAll (C := mockHTTPClient) p) made)) EmptyString
                    = nth q buffers EmptyString)
      /\ fst (mock _ (ReadAll (C := mockHTTPClient) p) (snd (mock _ (ReadAll (C := mockHTTPClient) p) made)))
         = (EmptyString, None)
      /\ mock _ (Close (C := mockHTTPClient) p) made = (None, made)).
Proof.
  split.
  - intros e He. cbn. now rewrite He.
  - intros Hnil p made. subst p made. rewrite (mock_Get m url buffers Hnil). cbn [fst snd].
    split; [reflexivity |]. split; [now rewrite mock_ReadAll |].
    rewrite mock_ReadAll. cbn [fst snd]. split.
    + intros q Hq. rewrite drain_spec.
      destruct (Nat.eqb_spec q (List.length buffers)); [lia | now apply nth_app_left].
    + split; [| reflexivity]. cbn. rewrite drain_spec. now rewrite Nat.eqb_refl.
Qed.

Lemma mock_Get_body_round_trip_witness :
  fst (mock _ (ReadAll (C := mockHTTPClient) 1%nat)
         (snd (mock _ (Get {| statusCode := 200; body := body_john_doe; err := None |} EmptyString)
                 [body_invalid])))
  = (body_john_doe, None).
Proof.
  exact (proj1 (proj2 (proj2 (mock_Get_body_round_trip
                                {| statusCode := 200; body := body_john_doe; err := None |}
                                EmptyString [body_invalid]) eq_refl))).
Defined.

(** X7: with the repository's double [GetUser] never panics and its result
    depends on the three fields of the double alone: the wrapped error when
    one is set, else the status error when the code is not 200, else what
    decoding the held text gives.  It is never a failure to read the
    response. *)
Theorem GetUser_with_mock (m : mockHTTPClient) (id : Z) (buffers : list string) :
  result (exec mock (GetUser m id) buffers)
  = match err m with
    | Some e => Returned (zero, Some (wrapError ("failed to fetch user: " ++ Error e) e))
    | None =>
        if statusCode m =? 200 then
          match json.Unmarshal (body m) zero with
          | Returned (_, Some e) => Returned (zero, Some (wrapError ("failed to parse user: " ++ Error e) e))
          | Returned (user, None) => Returned (user, None)
          | Panicked => Panicked
          end
        else Returned (zero, Some (errorString ("unexpected status code: " ++ itoa (statusCode m))))
    end
  /\ result (exec mock (GetUser m id) buffers) <> Panicked
  /\ (forall user e cause,
         result (exec mock (GetUser m id) buffers) = Returned (user, Some e) ->
         e <> wrapError ("failed to read response: " ++ Error cause) cause).
Proof.
  assert (Hres : result (exec mock (GetUser m id) buffers)
                 = match err m with
                   | Some e => Returned (zero, Some (wrapError ("failed to fetch user: " ++ Error e) e))
                   | None =>
                       if statusCode m =? 200 then
                         match json.Unmarshal (body m) zero with
                         | Returned (_, Some e) =>
                             Returned (zero, Some (wrapError ("failed to parse user: " ++ Error e) e))
                         | Returned (user, None) => Returned (user, None)
                         | Panicked => Panicked
                         end
                       else Returned (zero, Some (errorString ("unexpected status code: " ++ itoa (statusCode m))))
                   end).
  { destruct (err m) as [e |] eqn:Herr.
    - assert (Hget : mock _ (Get m (user_url id)) buffers = ((None, Some e), buffers))
        by (cbn; now rewrite Herr).
      now rewrite (exec_GetUser_error mock _ _ _ _ _ _ Hget).
    - rewrite (exec_GetUser_response mock _ _ _ _ _ _ (mock_Get m _ buffers Herr) eq_refl). cbn [result].
      destruct (statusCode m =? 200) eqn:Hcode.
      + apply Z.eqb_eq in Hcode. rewrite exec_after_defer_read by exact Hcode. cbn [result].
        now rewrite mock_ReadAll.
      + apply Z.eqb_neq in Hcode. now rewrite exec_after_defer_status by exact Hcode. }
  split; [exact Hres |]. rewrite Hres. split.
  - destruct (err m); [discriminate |]. destruct (statusCode m =? 200); [| discriminate].
    destruct (json_facts.Unmarshal_returns (body m) zero) as [[u [e |]] ->]; discriminate.
  - intros user e cause. destruct (err m); [intros [= _ <-]; discriminate |].
    destruct (statusCode m =? 200); [| intros [= _ <-]; discriminate].
    destruct (json.Unmarshal (body m) zero) as [[u [e' |]] |]; intros [= ? <-] || intros [=].
    all: try discriminate.
Qed.

(** ** [main] of [demos/api-call] *)

(** X8: [main] asks for user 1 and then writes exactly one line: the text of
    the error after ["Error: "] when [GetUser] returned one, else the name
    after ["User: "].  The line is written after every call to the client;
    nothing is written when [GetUser] panics. *)
Theorem api_main_writes_one_line {C B S : Type} (h : handler (HTTPClient C B) S) (client : C)
    (out : list string) (s : S) :
  let got := exec h (GetUser client 1) s in
  let run := exec (beside console h) (api_call_main.main client) (out, s) in
  (forall user e,
      result got = Returned (user, Some e) ->
      result run = Returned tt
      /\ final run = (out ++ [("Error: " ++ Error e ++ newline)%string], final got)
      /\ calls run = map (inject_call (fun X => OnRight)) (calls got)
                     ++ [Call (OnLeft (Write ("Error: " ++ Error e ++ newline)))])
  /\ (forall user,
      result got = Returned (user, None) ->
      result run = Returned tt
      /\ final run = (out ++ [("User: " ++ Name user ++ newline)%string], final got)
      /\ calls run = map (inject_call (fun X => OnRight)) (calls got)
                     ++ [Call (OnLeft (Write ("User: " ++ Name user ++ newline)))])
  /\ (result got = Panicked ->
      result run = Panicked /\ fst (final run) = out).
Proof.
  cbv zeta. unfold api_call_main.main. rewrite exec_after, exec_inject_right. cbn [result final calls].
  refine (conj _ (conj _ _)).
  - intros user e Hgot. rewrite Hgot. cbn [snd fst]. rewrite exec_Printf. cbn [result final calls].
    unfold fmt.Sprintf. cbn. repeat split.
  - intros user Hgot. rewrite Hgot. cbn [snd fst]. rewrite exec_Printf. cbn [result final calls].
    unfold fmt.Sprintf. cbn. repeat split.
  - intros Hgot. rewrite Hgot. split; reflexivity.
Qed.

Lemma api_main_writes_one_line_witness :
  fst (final (exec (beside console mock)
                (api_call_main.main {| statusCode := 404; body := EmptyString; err := None |}) ([], [])))
  = [("Error: unexpected status code: 404" ++ newline)%string]
  /\ fst (final (exec (beside console mock)
                   (api_call_main.main {| statusCode := 200; body := body_john_doe; err := None |}) ([], [])))
     = [("User: John Doe" ++ newline)%string].
Proof.
  split.
  - exact (f_equal fst
             (proj1 (proj2 (proj1 (api_main_writes_one_line mock
                                     {| statusCode := 404; body := EmptyString; err := None |} [] [])
                              zero (errorString "unexpected status code: 404") eq_refl)))).
  - exact (f_equal fst
             (proj1 (proj2 (proj1 (proj2 (api_main_writes_one_line mock
                                            {| statusCode := 200; body := body_john_doe; err := None |} [] []))
                              {| Name := "John Doe" |} eq_refl)))).
Defined.

(** ** Bodies that fail to decode *)

Lemma checkValid_spaces (ws : list ascii) :
  forall s : json.scanner,
    Forall (fun c => json.isSpace c = true) ws ->
    json.step s = json.stateBeginValue -> json.err s = None -> json.endTop s = false ->
    json.checkValid_from ws s
    = Some (SyntaxError "unexpected end of JSON input" (json.bytes s + Z.of_nat (List.length ws))).
Proof.
  induction ws as [| c ws IH]; intros s Hws Hstep Herr Htop.
  - cbn [json.checkValid_from]. unfold json.eof. rewrite Herr, Htop.
    unfold json.apply. rewrite Hstep. cbn. rewrite Htop, Herr. cbn. now rewrite Z.add_0_r.
  - inversion Hws as [| c' ws' Hc Hrest]; subst.
    cbn [json.checkValid_from]. unfold json.apply. cbn [json.step json.bump]. rewrite Hstep.
    unfold json.do_stateBeginValue. rewrite Hc.
    rewrite IH by assumption. cbn [json.bump json.bytes List.length]. f_equal. f_equal. lia.
Qed.

Lemma length_list_ascii (s : string) : List.length (list_ascii_of_string s) = String.length s.
Proof.
  induction s as [| c s IH]; cbn; [reflexivity | now rewrite IH].
Qed.

(** X9: a body that is empty or holds only spaces, tabs and line ends is a
    parse failure: the cause is the syntax error
    ["unexpected end of JSON input"] at the end of the body, and the record
    is [User{}]. *)
Theorem GetUser_blank_body (blank : string) :
  Forall (fun c => json.isSpace c = true) (list_ascii_of_string blank) ->
  json.Unmarshal blank zero
  = Returned (zero, Some (SyntaxError "unexpected end of JSON input" (len blank)))
  /\ forall (id : Z) (buffers : list string),
      result (exec mock (GetUser {| statusCode := 200; body := blank; err := None |} id) buffers)
      = Returned (zero, Some (wrapError "failed to parse user: unexpected end of JSON input"
                                (SyntaxError "unexpected end of JSON input" (len blank)))).
Proof.
  intros Hblank.
  assert (Hjson : json.Unmarshal blank zero
                  = Returned (zero, Some (SyntaxError "unexpected end of JSON input" (len blank)))).
  { unfold json.Unmarshal, json.checkValid.
    rewrite (checkValid_spaces _ json.reset Hblank eq_refl eq_refl eq_refl).
    cbn [json.bytes json.reset Z.add]. unfold len. now rewrite length_list_ascii. }
  split; [exact Hjson |]. intros id buffers.
  rewrite (exec_GetUser_response mock _ _ _ _ _ _
             (mock_Get {| statusCode := 200; body := blank; err := None |} _ buffers eq_refl) eq_refl).
  cbn [result]. rewrite exec_after_defer_read by reflexivity. cbn [result].
  rewrite (mock_ReadAll {| statusCode := 200; body := blank; err := None |}). cbn [fst snd body].
  now rewrite Hjson.
Qed.

Lemma GetUser_blank_body_witness :
  result (exec mock (GetUser {| statusCode := 200; body := "  "; err := None |} 1) [])
  = Returned (zero, Some (wrapError "failed to parse user: unexpected end of JSON input"
                            (SyntaxError "unexpected end of JSON input" 2))).
Proof.
  apply (proj2 (GetUser_blank_body "  " ltac:(repeat constructor)) 1 []).
Defined.





(** ** The recording double among others *)

Lemma nth_error_record_duration_other (ms : list sleeper.mockSleeper) (p q : nat) (d : sleeper.Duration) :
  q <> p -> nth_error (sleeper.record_duration ms p d) q = nth_error ms q.
Proof.
  revert p q. induction ms as [| m ms IH]; intros [| p] [| q] Hq; cbn; try reflexivity; try contradiction.
  apply IH. congruence.
Qed.

Lemma length_record_duration (ms : list sleeper.mockSleeper) (p : nat) (d : sleeper.Duration) :
  List.length (sleeper.record_duration ms p d) = List.length ms.
Proof.
  revert p. induction ms as [| m ms IH]; intros [| p]; cbn; auto.
Qed.

(** X11: run with a recording double, [DoWork] overwrites what that double
    held and touches no other: every other double in the store keeps its
    duration, none is added or removed, and two lines are added to the
    output. *)
Theorem DoWork_touches_only_its_sleeper (out : list string) (ms : list sleeper.mockSleeper) (p : nat) :
  let after_run := final (exec sleeper.mock (sleeper.DoWork (sleeper.NewWorker p))
                            {| sleeper.stdout := out; sleeper.sleepers := ms |}) in
  List.length (sleeper.sleepers after_run) = List.length ms
  /\ (forall q, q <> p -> nth_error (sleeper.sleepers after_run) q = nth_error ms q)
  /\ ((p < List.length ms)%nat ->
      nth_error (sleeper.sleepers after_run) p = Some {| sleeper.duration := 2000000000 |})
  /\ List.length (sleeper.stdout after_run) = (List.length out + 2)%nat.
Proof.
  cbv zeta. rewrite exec_DoWork. cbn.
  split; [apply length_record_duration |].
  split; [intros q Hq; now apply nth_error_record_duration_other |].
  split.
  - intros Hp. destruct (nth_error ms p) as [m |] eqn:Hm.
    + exact (nth_error_record_duration ms p _ m Hm).
    + apply nth_error_None in Hm. lia.
  - rewrite !length_app. cbn. lia.
Qed.

Lemma DoWork_touches_only_its_sleeper_witness :
  nth_error (sleeper.sleepers
               (final (exec sleeper.mock (sleeper.DoWork (sleeper.NewWorker 1%nat))
                         {| sleeper.stdout := [];
                            sleeper.sleepers := [{| sleeper.duration := 5 |}; {| sleeper.duration := 7 |}] |})))
            0
  = Some {| sleeper.duration := 5 |}.
Proof.
  apply (proj1 (proj2 (DoWork_touches_only_its_sleeper []
                         [{| sleeper.duration := 5 |}; {| sleeper.duration := 7 |}] 1%nat)) 0%nat).
  discriminate.
Defined.

(** ** Before and after the interface *)

(** X12: the slide deck's [GenerateName] "without interfaces" and the
    consumer written against [StringGenerator], wired with the production
    generator on the same source, run alike from every state of the source:
    the same draws, the same state left, the same name or panic. *)
Theorem GenerateName_refactoring_preserved {S : Type} (h : handler (rng.Rand unit) S) (baseName : string)
    (s : S) :
  exec h (slides.GenerateName_direct baseName) s
  = exec h (translate rng_main.production
              (rng.GenerateName {| rng.generator := {| rng.rng := tt |} |} baseName)) s.
Proof.
  cbn [rng.GenerateName bind trigger translate rng_main.production rng.generator].
  unfold slides.GenerateName_direct, rng.RandomStringGenerator_Generate.
  change rng.suffixLen with 5%nat.
  rewrite !exec_after, exec_bind. cbn [result final calls].
  destruct (result (exec h (rng.fill {| rng.rng := tt |} (seq 0 5) (repeat Ascii.zero 5)) s)) as [bytes |];
    cbn [exec result final calls]; now rewrite ?app_nil_r.
Qed.

(** X13: in production ([realSleeper] behind the interface) the demo's
    [DoWork] prints, calls [time.Sleep] once with 2 seconds, prints, and
    returns nothing; the slide deck's [DoWork], with or without the
    interface, makes the same calls and leaves the same state, and returns
    ["done"]. *)
Theorem DoWork_in_production {S : Type} (h : handler (either Stdout sleeper_production.Time) S) (s : S) :
  let demo := exec h (translate sleeper_production.realSleeper (sleeper.DoWork (sleeper.NewWorker tt))) s in
  let slide := exec h (translate sleeper_production.realSleeper (slides.DoWork (sleeper.NewWorker tt))) s in
  let direct := exec h slides.DoWork_direct s in
  calls demo = [Call (OnLeft (Write ("Starting work..." ++ newline)));
                Call (OnRight (sleeper_production.time_Sleep 2000000000));
                Call (OnLeft (Write ("Work complete!" ++ newline)))]
  /\ result demo = Returned []
  /\ slide = direct
  /\ calls direct = calls demo /\ final direct = final demo
  /\ result direct = Returned [VString "done"].
Proof.
  cbv zeta. unfold slides.DoWork_direct, slides.DoWork, sleeper.DoWork, sleeper.NewWorker.
  cbn [bind trigger translate sleeper_production.realSleeper sleeper.sleeper].
  unfold after, Println. cbn [bind exec].
  destruct (h _ (OnLeft (Write ("Starting work..." ++ newline))) s) as [[] s1].
  cbn [exec bind].
  destruct (h _ (OnRight (sleeper_production.time_Sleep (2 * sleeper.Second))) s1) as [[] s2].
  cbn [exec bind].
  destruct (h _ (OnLeft (Write ("Work complete!" ++ newline))) s2) as [[] s3].
  cbn. repeat split.
Qed.

(** ** What [Close] answers *)

(** X14: what [Close] reports is dropped: two clients that answer [Get] and
    [io.ReadAll] alike give [GetUser] the same result, whatever their bodies
    answer to [Close]. *)
Theorem GetUser_ignores_Close {C B S : Type} (h h' : handler (HTTPClient C B) S) :
  (forall client url s, h _ (Get client url) s = h' _ (Get client url) s) ->
  (forall b s, h _ (ReadAll b) s = h' _ (ReadAll b) s) ->
  forall (client : C) (id : Z) (s : S),
    result (exec h (GetUser client id) s) = result (exec h' (GetUser client id) s).
Proof.
  intros Hget Hread client id s.
  pose proof (Hget client (user_url id) s) as Hsame.
  destruct (h _ (Get client (user_url id)) s) as [[resp cause] s1] eqn:E.
  symmetry in Hsame.
  destruct cause as [e |].
  - now rewrite (exec_GetUser_error h _ _ _ _ _ _ E), (exec_GetUser_error h' _ _ _ _ _ _ Hsame).
  - destruct resp as [resp |].
    2:{ now rewrite (exec_GetUser_nil h _ _ _ _ _ E I), (exec_GetUser_nil h' _ _ _ _ _ Hsame I). }
    destruct (Body resp) as [b |] eqn:Hbody.
    2:{ now rewrite (exec_GetUser_nil h _ _ _ _ _ E Hbody), (exec_GetUser_nil h' _ _ _ _ _ Hsame Hbody). }
    rewrite (exec_GetUser_response h _ _ _ _ _ _ E Hbody), (exec_GetUser_response h' _ _ _ _ _ _ Hsame Hbody).
    cbn [result].
    destruct (Z.eq_dec (StatusCode resp) StatusOK) as [Hcode | Hcode].
    + rewrite !exec_after_defer_read by exact Hcode. cbn [result]. now rewrite Hread.
    + now rewrite !exec_after_defer_status by exact Hcode.
Qed.

Lemma GetUser_ignores_Close_witness :
  result (exec (script {| get_resp := Some {| StatusCode := 200; Body := Some tt |}; get_err := None;
                          read_data := body_john_doe; read_err := None; close_err := Some ErrUnexpectedEOF |})
               (GetUser tt 1) tt)
  = result (exec (script {| get_resp := Some {| StatusCode := 200; Body := Some tt |}; get_err := None;
                            read_data := body_john_doe; read_err := None; close_err := None |})
                 (GetUser tt 1) tt).
Proof.
  apply (GetUser_ignores_Close
           (script {| get_resp := Some {| StatusCode := 200; Body := Some tt |}; get_err := None;
                      read_data := body_john_doe; read_err := None; close_err := Some ErrUnexpectedEOF |})
           (script {| get_resp := Some {| StatusCode := 200; Body := Some tt |}; get_err := None;
                      read_data := body_john_doe; read_err := None; close_err := None |}));
    reflexivity.
Defined.

Lemma user_url_of_id_witness :
  user_url 42 = user_url 42 /\ 42 = 42.
Proof.
  split; [reflexivity |].
  exact (proj1 (proj2 user_url_of_id) 42 42 eq_refl).
Defined.

Lemma GetUser_with_mock_witness :
  result (exec mock (GetUser {| statusCode := 404; body := EmptyString; err := None |} 1) [])
  = Returned (zero, Some (errorString "unexpected status code: 404"))
  /\ errorString "unexpected status code: 404"
     <> wrapError ("failed to read response: " ++ Error ErrUnexpectedEOF) ErrUnexpectedEOF.
Proof.
  split; [reflexivity |].
  exact (proj2 (proj2 (GetUser_with_mock {| statusCode := 404; body := EmptyString; err := None |} 1 []))
           zero (errorString "unexpected status code: 404") ErrUnexpectedEOF eq_refl).
Defined.
